(** * Electricity price API: the credential store, the token gate and the
    price dataset service

  A shallow embedding of [src/services/authService.ts],
  [src/services/dataService.ts] and [src/middleware/auth.ts], with the
  parts of the JavaScript runtime and of the [jsonwebtoken] dependency
  they rest on, followed by the properties proved about them. *)

From Stdlib Require Import ZArith QArith List String Ascii Bool Lia SpecFloat.
From stdpp Require Import gmap strings.
Import ListNotations.

Local Open Scope string_scope.
Local Open Scope Z_scope.

(** ** The JavaScript runtime the services rely on *)

Module Js.

(** Numbers are IEEE 754 binary64 values. *)
Definition number : Type := spec_float.

Definition prec : Z := 53.
Definition emax : Z := 1024.

Definition NaN : number := S754_nan.
Definition zero : number := S754_zero false.

(** [a + b] and [a / b] on numbers. *)
Definition add (a b : number) : number := SFadd prec emax a b.
Definition div (a b : number) : number := SFdiv prec emax a b.

(** The global [isNaN] applied to a number. *)
Definition isNaN (x : number) : bool :=
  match x with S754_nan => true | _ => false end.

(** [Number.isFinite]. *)
Definition isFinite (x : number) : bool :=
  match x with S754_zero _ | S754_finite _ _ _ => true | _ => false end.

(** The number denoted by an integer (an array length, for instance),
    rounded to nearest even when it exceeds 53 bits. *)
Definition of_integer (z : Z) : number := binary_normalize prec emax z 0 false.

(** [a === b] on numbers: [NaN] differs from itself, the two zeros agree. *)
Definition number_eqb (a b : number) : bool := SFeqb a b.

(** The values a cell of a parsed CSV record can hold: a column that the
    header does not name reads as [undefined]; the parser's [cast] option
    turns a numeric cell into a number and leaves any other as a string. *)
Inductive value : Type :=
| Undefined
| Str (s : string)
| Num (x : number).

(** ToBoolean, as taken by [!v] and [a && b]. *)
Definition truthy (v : value) : bool :=
  match v with
  | Undefined => false
  | Str s => negb (String.eqb s "")
  | Num (S754_zero _) => false
  | Num S754_nan => false
  | Num _ => true
  end.

(** [a === b]. *)
Definition strict_eq (a b : value) : bool :=
  match a, b with
  | Undefined, Undefined => true
  | Str s, Str t => String.eqb s t
  | Num x, Num y => number_eqb x y
  | _, _ => false
  end.

(** SameValueZero, the equality on the elements of a [Set]. *)
Definition same_value_zero (a b : value) : bool :=
  match a, b with
  | Undefined, Undefined => true
  | Str s, Str t => String.eqb s t
  | Num x, Num y => number_eqb x y || (isNaN x && isNaN y)
  | _, _ => false
  end.

(** A [Set], held as the list of its elements in insertion order. *)
Definition set : Type := list value.

Definition set_has (s : set) (v : value) : bool :=
  existsb (fun e => same_value_zero e v) s.

(** [s.add(v)] *)
Definition set_add (v : value) (s : set) : set :=
  if set_has s v then s else (s ++ [v])%list.

(** Truthiness of a value of type [string | undefined], such as a
    variable of [process.env]. *)
Definition nonempty (o : option string) : bool :=
  match o with
  | Some s => negb (String.eqb s "")
  | None => false
  end.

(** *** Strings

    A text is held as the bytes of its UTF-8 encoding (an unpaired
    surrogate as the three bytes the same scheme gives it), which is one
    to one: two texts are equal when their bytes are, a character below
    U+0080 is one byte that occurs in no other character's encoding, and
    so [===], the keys of a [Map], [split] and [includes] on one such
    character read the same on the bytes.

    White space is what [trim] and [parseFloat] strip, the WhiteSpace and
    LineTerminator classes of the language: U+0009 to U+000D and U+0020 in
    one byte; U+00A0 in two; U+1680, U+2000 to U+200A, U+2028, U+2029,
    U+202F, U+205F, U+3000 and U+FEFF in three. *)

Definition whitespace1 (c : ascii) : bool :=
  let n := N_of_ascii c in
  ((9 <=? n) && (n <=? 13))%N || (n =? 32)%N.

Definition whitespace2 (c d : ascii) : bool :=
  ((N_of_ascii c =? 194) && (N_of_ascii d =? 160))%N.

Definition whitespace3 (c d e : ascii) : bool :=
  let x := N_of_ascii c in
  let y := N_of_ascii d in
  let z := N_of_ascii e in
  (((x =? 225) && (y =? 154) && (z =? 128))
   || ((x =? 226) && (y =? 128)
       && (((128 <=? z) && (z <=? 138)) || (z =? 168) || (z =? 169) || (z =? 175)))
   || ((x =? 226) && (y =? 129) && (z =? 159))
   || ((x =? 227) && (y =? 128) && (z =? 128))
   || ((x =? 239) && (y =? 187) && (z =? 191)))%N.

(** What follows the white-space character at the head of [s], when there
    is one. *)
Definition whitespace_prefix (s : string) : option string :=
  match s with
  | String c r =>
      if whitespace1 c then Some r
      else
        match r with
        | String d r2 =>
            if whitespace2 c d then Some r2
            else
              match r2 with
              | String e r3 => if whitespace3 c d e then Some r3 else None
              | EmptyString => None
              end
        | EmptyString => None
        end
  | EmptyString => None
  end.

(** [s.trimStart()]: the white-space characters at the head are dropped,
    one after the other. *)
Fixpoint trimStart (s : string) : string :=
  match s with
  | String c r =>
      if whitespace1 c then trimStart r
      else
        match r with
        | String d r2 =>
            if whitespace2 c d then trimStart r2
            else
              match r2 with
              | String e r3 => if whitespace3 c d e then trimStart r3 else s
              | EmptyString => s
              end
        | EmptyString => s
        end
  | EmptyString => s
  end.

(** A text of white-space characters only (the empty text included). *)
Fixpoint blank (s : string) : bool :=
  match s with
  | String c r =>
      if whitespace1 c then blank r
      else
        match r with
        | String d r2 =>
            if whitespace2 c d then blank r2
            else
              match r2 with
              | String e r3 => whitespace3 c d e && blank r3
              | EmptyString => false
              end
        | EmptyString => false
        end
  | EmptyString => true
  end.

(** [s.trimEnd()]: the text is cut where what remains is blank. *)
Fixpoint trimEnd (s : string) : string :=
  match s with
  | String c r => if blank s then EmptyString else String c (trimEnd r)
  | EmptyString => EmptyString
  end.

(** [s.trim()] *)
Definition trim (s : string) : string := trimEnd (trimStart s).

(** [s.split(sep)] for a separator of one character: always at least one
    part, empty parts kept. *)
Fixpoint split (sep : ascii) (s : string) : list string :=
  match s with
  | EmptyString => [EmptyString]
  | String c r =>
      if Ascii.eqb c sep then EmptyString :: split sep r
      else match split sep r with
           | part :: parts => String c part :: parts
           | [] => [String c EmptyString]
           end
  end.

(** [hay.includes(needle)] *)
Fixpoint includes (needle hay : string) : bool :=
  String.prefix needle hay
  || match hay with
     | String _ r => includes needle r
     | EmptyString => false
     end.

(** *** parseFloat *)

Definition digit_of (c : ascii) : option Z :=
  let n := Z.of_N (N_of_ascii c) in
  if (48 <=? n) && (n <=? 57) then Some (n - 48) else None.

(** The longest run of decimal digits at the head of [s], and what follows. *)
Fixpoint span_digits (s : string) : list Z * string :=
  match s with
  | String c r =>
      match digit_of c with
      | Some d => let '(ds, rest) := span_digits r in (d :: ds, rest)
      | None => ([], s)
      end
  | EmptyString => ([], s)
  end.

Definition digits_value (ds : list Z) : Z :=
  fold_left (fun acc d => 10 * acc + d) ds 0.

(** An unsigned StrDecimalLiteral: [Infinity], or the digits of the
    mantissa read as an integer with a power of ten. *)
Inductive literal : Type :=
| LitInfinity
| LitDecimal (mantissa : Z) (exp10 : Z).

(** The ExponentPart at the head of [s]: [e] or [E], an optional sign and
    at least one digit; 0 when there is none. *)
Definition scan_exponent (s : string) : Z :=
  match s with
  | String c r =>
      if Ascii.eqb c "e" || Ascii.eqb c "E" then
        let '(neg, r') :=
          match r with
          | String "+" r1 => (false, r1)
          | String "-" r1 => (true, r1)
          | _ => (false, r)
          end in
        match span_digits r' with
        | ([], _) => 0
        | (ds, _) => if neg then - digits_value ds else digits_value ds
        end
      else 0
  | EmptyString => 0
  end.

Definition scan_unsigned (s : string) : option literal :=
  if String.prefix "Infinity" s then Some LitInfinity
  else
    let '(int_part, r1) := span_digits s in
    let '(frac_part, r2) :=
      match r1 with
      | String "." r => span_digits r
      | _ => ([], r1)
      end in
    match int_part, frac_part with
    | [], [] => None
    | _, _ =>
        Some (LitDecimal (digits_value (int_part ++ frac_part)%list)
                         (scan_exponent r2 - Z.of_nat (length frac_part)))
    end.

(** The longest prefix of [s] that is a StrDecimalLiteral, with its sign. *)
Definition scan_literal (s : string) : option (bool * literal) :=
  match s with
  | String "-" r => option_map (pair true) (scan_unsigned r)
  | String "+" r => option_map (pair false) (scan_unsigned r)
  | _ => option_map (pair false) (scan_unsigned s)
  end.

(** The number nearest to the literal's mathematical value. *)
Definition literal_value (neg : bool) (l : literal) : number :=
  match l with
  | LitInfinity => S754_infinity neg
  | LitDecimal m e =>
      match m with
      | Zpos p =>
          if 0 <=? e
          then binary_normalize prec emax (if neg then - (m * 10 ^ e) else m * 10 ^ e) 0 false
          else div (S754_finite neg p 0) (S754_finite false (Z.to_pos (10 ^ (- e))) 0)
      | _ => S754_zero neg
      end
  end.

Definition parseFloat_string (s : string) : number :=
  match scan_literal (trimStart s) with
  | Some (neg, l) => literal_value neg l
  | None => NaN
  end.

(** [parseFloat(v)]: the argument is first converted to a string. The
    text of [undefined] has no numeric prefix; the text of a number reads
    back as that number, the sign of a zero apart. *)
Definition parseFloat (v : value) : number :=
  match v with
  | Undefined => NaN
  | Str s => parseFloat_string s
  | Num (S754_zero _) => zero
  | Num x => x
  end.

End Js.

(** ** The jsonwebtoken dependency

  [jwt.sign(payload, secret)] and [jwt.verify(token, secret)] with their
  default options (HMAC with SHA-2). A token decodes to a JSON value, of
  which [verify] reads the members [nbf] and [exp]. The signature is
  symbolic: a tag records the key and the payload it was computed over,
  so that two tags agree exactly when both do. The compact serialisation
  (base64url of header, payload and tag, joined by dots) is left to a
  [Codec]. *)

Module Jwt.

(** The payload the service signs: [JWTPayload] of [src/types]. *)
Record JWTPayload : Type := { username : string; iat : Z; exp : Z }.

(** A JSON number, by its exact value; a literal beyond the range of the
    numbers reads as an infinity. *)
Inductive number : Type :=
| Finite (q : Q)
| Infinity (negative : bool).

(** [x <= z], for a whole [z]. *)
Definition number_le (x : number) (z : Z) : bool :=
  match x with
  | Finite q => Qle_bool q (inject_Z z)
  | Infinity negative => negative
  end.

Definition number_is_zero (x : number) : bool :=
  match x with
  | Finite q => Qeq_bool q (inject_Z 0)
  | Infinity _ => false
  end.

(** A member of a payload object: a string, a number, or a value of
    another type (null, a boolean, an array, an object), held as its
    JSON text. *)
Inductive member : Type :=
| Text (s : string)
| Number (x : number)
| Other (text : string).

(** What the payload of a token decodes to. An array is held as its JSON
    text: it has no member that [verify] reads. *)
Inductive json : Type :=
| JsonNull
| JsonBoolean (b : bool)
| JsonNumber (x : number)
| JsonString (s : string)
| JsonArray (text : string)
| JsonObject (members : gmap string member).

#[global] Instance Q_eq_dec : EqDecision Q.
Proof. solve_decision. Defined.

#[global] Instance number_eq_dec : EqDecision number.
Proof. solve_decision. Defined.

#[global] Instance member_eq_dec : EqDecision member.
Proof. solve_decision. Defined.

#[global] Instance json_eq_dec : EqDecision json.
Proof. solve_decision. Defined.

(** ToBoolean, as taken by [!user]. *)
Definition truthy (v : json) : bool :=
  match v with
  | JsonNull => false
  | JsonBoolean b => b
  | JsonNumber x => negb (number_is_zero x)
  | JsonString s => negb (String.eqb s "")
  | JsonArray _ => true
  | JsonObject _ => true
  end.

(** [payload.name] for a payload that is not [null]; [None] stands for
    [undefined]. *)
Definition get (payload : json) (name : string) : option member :=
  match payload with
  | JsonObject members => members !! name
  | _ => None
  end.

(** The object a [JWTPayload] is. *)
Definition object_of (p : JWTPayload) : json :=
  JsonObject (<["username" := Text (username p)]>
                (<["iat" := Number (Finite (inject_Z (iat p)))]>
                   (<["exp" := Number (Finite (inject_Z (exp p)))]> ∅))).

Inductive signature : Type :=
| HMAC (key : string) (signed : json).

Record jws : Type := { claims : json; tag : signature }.

(** [parse] gives nothing for a text that is not a token: one that has
    not three parts, or whose header or payload does not decode, or
    whose header names no HMAC algorithm, or that has no signature. *)
Class Codec : Type := {
  serialize : jws -> string;
  parse : string -> option jws
}.

(** What the service needs of the serialisation: a token reads back as
    the structure it was written from, and is never the empty text. *)
Class CodecLaws (C : Codec) : Prop := {
  parse_serialize : forall j, parse (serialize j) = Some j;
  serialize_nonempty : forall j, serialize j <> ""
}.

Inductive error : Type :=
| JsonWebTokenError (message : string)
| NotBeforeError
| TokenExpiredError
| OtherError (message : string).

(** [jwt.sign]: the [iat] of the payload is kept unless it is 0, in which
    case the clock is read ([now], in milliseconds). *)
Definition sign `{Codec} (payload : JWTPayload) (secret : string) (now : Z)
  : error + string :=
  if String.eqb secret "" then inl (OtherError "secretOrPrivateKey must have a value")
  else
    let timestamp := if iat payload =? 0 then now / 1000 else iat payload in
    let signed :=
      object_of {| username := username payload; iat := timestamp; exp := exp payload |} in
    inr (serialize {| claims := signed; tag := HMAC secret signed |}).

Definition signature_valid (j : jws) (secret : string) : bool :=
  match tag j with
  | HMAC key signed => String.eqb key secret && bool_decide (signed = claims j)
  end.

(** The check of [payload.nbf] against the clock, in seconds. *)
Definition notBefore (payload : json) (clockTimestamp : Z) : option error :=
  match get payload "nbf" with
  | None => None
  | Some (Number nbf) =>
      if number_le nbf clockTimestamp then None else Some NotBeforeError
  | Some _ => Some (JsonWebTokenError "invalid nbf value")
  end.

(** The check of [payload.exp]. *)
Definition expired (payload : json) (clockTimestamp : Z) : option error :=
  match get payload "exp" with
  | None => None
  | Some (Number exp) =>
      if number_le exp clockTimestamp then Some TokenExpiredError else None
  | Some _ => Some (JsonWebTokenError "invalid exp value")
  end.

(** What [verify] does with the payload of a token whose signature it
    accepted. Reading a member of the payload [null] throws a
    [TypeError]. *)
Definition checkClaims (payload : json) (clockTimestamp : Z) : error + json :=
  match payload with
  | JsonNull => inl (OtherError "Cannot read properties of null")
  | _ =>
      match notBefore payload clockTimestamp with
      | Some e => inl e
      | None =>
          match expired payload clockTimestamp with
          | Some e => inl e
          | None => inr payload
          end
      end
  end.

(** [jwt.verify]: the checks in the order the library makes them. *)
Definition verify `{Codec} (token secret : string) (now : Z) : error + json :=
  let clockTimestamp := now / 1000 in
  if String.eqb token "" then inl (JsonWebTokenError "jwt must be provided")
  else
    match parse token with
    | None => inl (JsonWebTokenError "jwt malformed")
    | Some j =>
        if String.eqb secret "" then inl (JsonWebTokenError "secret or public key must be provided")
        else if negb (signature_valid j secret) then inl (JsonWebTokenError "invalid signature")
        else checkClaims (claims j) clockTimestamp
    end.

End Jwt.

(** ** src/services/authService.ts *)

Module AuthService.

(** The variables of [process.env] the constructor reads. *)
Record Env : Type := {
  JWT_SECRET : option string;
  API_USERS : option string;
  API_USERNAME : option string;
  API_PASSWORD : option string
}.

Record t : Type := {
  users : gmap string string;
  jwtSecret : string
}.

Inductive ConfigError : Type :=
| JwtSecretRequired   (* 'JWT_SECRET environment variable is required' *)
| NoUsersFound.       (* 'No users found. Set API_USERS ...' *)

(** The body of the loop over [apiUsers.split(',')]:
    [const [username, password] = pair.trim().split(':')]. *)
Definition addPair (users : gmap string string) (pair : string) : gmap string string :=
  match Js.split ":" (Js.trim pair) with
  | username :: password :: _ =>
      if negb (String.eqb username "") && negb (String.eqb password "")
      then <[username := password]> users
      else users
  | _ => users
  end.

Definition loadUsersFromEnv (env : Env) (users : gmap string string) : gmap string string :=
  let apiUsers := API_USERS env in
  if Js.nonempty apiUsers then
    fold_left addPair (Js.split "," (default "" apiUsers)) users
  else
    let legacyUsername := API_USERNAME env in
    let legacyPassword := API_PASSWORD env in
    if Js.nonempty legacyUsername && Js.nonempty legacyPassword
    then <[default "" legacyUsername := default "" legacyPassword]> users
    else users.

Definition constructor (env : Env) : ConfigError + t :=
  if negb (Js.nonempty (JWT_SECRET env)) then inl JwtSecretRequired
  else
    let users := loadUsersFromEnv env ∅ in
    if Nat.eqb (size users) 0 then inl NoUsersFound
    else inr {| users := users; jwtSecret := default "" (JWT_SECRET env) |}.

(** The arguments are [None] when the caller passes [undefined]. *)
Definition validateCredentials (svc : t) (username password : option string) : bool :=
  if negb (Js.nonempty username) || negb (Js.nonempty password) then false
  else
    match username, password with
    | Some u, Some p =>
        match users svc !! u with
        | Some storedPassword => String.eqb storedPassword p
        | None => false
        end
    | _, _ => false
    end.

(** The readings of [Date.now()] (milliseconds) during one call of
    [generateToken]: for [iat], for [exp], and inside [jwt.sign]. *)
Record Clock : Type := { at_iat : Z; at_exp : Z; at_sign : Z }.

Definition steady (now : Z) : Clock :=
  {| at_iat := now; at_exp := now; at_sign := now |}.

Definition generateToken `{Jwt.Codec} (svc : t) (username : string) (clock : Clock)
  : Jwt.error + string :=
  let payload :=
    {| Jwt.username := username;
       Jwt.iat := at_iat clock / 1000;
       Jwt.exp := at_exp clock / 1000 + 24 * 60 * 60 |} in
  Jwt.sign payload (jwtSecret svc) (at_sign clock).

Definition validateToken `{Jwt.Codec} (svc : t) (token : string) (now : Z)
  : option Jwt.json :=
  if String.eqb token "" then None
  else
    match Jwt.verify token (jwtSecret svc) now with
    | inr decoded => Some decoded
    | inl _ => None
    end.

End AuthService.

(** ** src/middleware/auth.ts *)

Module AuthMiddleware.

(** What the middleware does with a request: it answers with a status and
    an error body, or it sets [req.user] and calls [next()]. *)
Inductive Outcome : Type :=
| Json (status : Z) (error : string)
| Next (user : Jwt.json).

(** The module keeps the service it built, or was given, in [authService]. *)
Definition getAuthService (authService : option AuthService.t) (env : AuthService.Env)
  : AuthService.ConfigError + AuthService.t :=
  match authService with
  | Some svc => inr svc
  | None => AuthService.constructor env
  end.

Definition authMiddleware `{Jwt.Codec}
    (authService : option AuthService.t) (env : AuthService.Env) (now : Z)
    (authorization : option string) : Outcome * option AuthService.t :=
  match authorization with
  | None => (Json 401 "Access token required", authService)
  | Some authHeader =>
      if String.eqb authHeader "" then (Json 401 "Access token required", authService)
      else
        match Js.split " " authHeader with
        | [scheme; token] =>
            if negb (String.eqb scheme "Bearer") || String.eqb token ""
            then (Json 401 "Access token required", authService)
            else
              match getAuthService authService env with
              | inl _ => (Json 401 "Invalid token", authService)
              | inr svc =>
                  match AuthService.validateToken svc token now with
                  | None => (Json 401 "Invalid token", Some svc)
                  | Some user =>
                      if Jwt.truthy user then (Next user, Some svc)
                      else (Json 401 "Invalid token", Some svc)
                  end
              end
        | _ => (Json 401 "Access token required", authService)
        end
  end.

End AuthMiddleware.

(** ** src/services/dataService.ts *)

Module DataService.

(** A row as the CSV parser hands it over ([record: any]). *)
Record RawRecord : Type := {
  raw_state : Js.value;
  raw_price : Js.value;
  raw_timestamp : Js.value
}.

Record PriceRecord : Type := {
  state : Js.value;
  price : Js.number;
  timestamp : Js.value
}.

Record t : Type := {
  data : list PriceRecord;
  states : list Js.value;
  csvFilePath : string
}.

(** The message of an [Error]: a text, or the one the row check builds,
    [`Invalid data format: ${JSON.stringify(record)}`]. *)
Inductive message : Type :=
| Text (s : string)
| InvalidDataFormat (record : RawRecord).

(** A thrown value: an [Error] with its [code], if any, or something else. *)
Inductive exception : Type :=
| Error (code : option string) (msg : message)
| NotAnError.

(** What [readFile] and [parse] give: either throws, or the rows come out. *)
Inductive Source : Type :=
| ReadFails (e : exception)
| ParseFails (e : exception)
| Parsed (records : list RawRecord).

(** The errors [loadData] rejects with. *)
Inductive LoadError : Type :=
| FileNotFound                 (* 'Failed to load CSV data: File not found' *)
| ParseFailed (msg : message)  (* 'Failed to parse CSV data: ' + message *)
| LoadFailed (msg : message)   (* 'Failed to load CSV data: ' + message *)
| UnknownError.                (* 'Failed to load CSV data: Unknown error' *)

Definition constructor (csvFilePath envPath : option string) : option t :=
  if negb (Js.nonempty csvFilePath) && negb (Js.nonempty envPath) then None
  else
    Some {| data := []; states := [];
            csvFilePath := if Js.nonempty csvFilePath then default "" csvFilePath
                           else default "" envPath |}.

(** The test of the row check. *)
Definition invalid (record : RawRecord) : bool :=
  Js.isNaN (Js.parseFloat (raw_price record))
  || negb (Js.truthy (raw_state record))
  || negb (Js.truthy (raw_timestamp record)).

(** The object the callback of [records.map] returns. *)
Definition toPriceRecord (record : RawRecord) : PriceRecord :=
  {| state := raw_state record;
     price := Js.parseFloat (raw_price record);
     timestamp := raw_timestamp record |}.

(** [records.map(...)], with the local set [states] threaded through: the
    first invalid row throws and nothing is returned. *)
Fixpoint mapRecords (records : list RawRecord) (states : Js.set)
  : exception + (list PriceRecord * Js.set) :=
  match records with
  | [] => inr ([], states)
  | record :: rest =>
      if invalid record then inl (Error None (InvalidDataFormat record))
      else
        match mapRecords rest (Js.set_add (raw_state record) states) with
        | inl e => inl e
        | inr (out, states') => inr (toPriceRecord record :: out, states')
        end
  end.

Definition mentionsInvalidFormat (m : message) : bool :=
  match m with
  | Text s => Js.includes "Invalid data format" s
  | InvalidDataFormat _ => true
  end.

(** The [catch] block. *)
Definition rethrow (e : exception) : LoadError :=
  match e with
  | Error code msg =>
      match code with
      | Some c => if String.eqb c "ENOENT" then FileNotFound
                  else if mentionsInvalidFormat msg then ParseFailed msg
                  else LoadFailed msg
      | None => if mentionsInvalidFormat msg then ParseFailed msg
                else LoadFailed msg
      end
  | NotAnError => UnknownError
  end.

(** [loadData]: the outcome, and the service afterwards. *)
Definition loadData (src : Source) (svc : t) : (LoadError + unit) * t :=
  match src with
  | ReadFails e => (inl (rethrow e), svc)
  | ParseFails e => (inl (rethrow e), svc)
  | Parsed records =>
      match mapRecords records [] with
      | inl e => (inl (rethrow e), svc)
      | inr (mapped, states) =>
          (inr tt, {| data := mapped; states := states; csvFilePath := csvFilePath svc |})
      end
  end.

Definition getAllData (svc : t) : list PriceRecord := data svc.

Definition getStateData (svc : t) (state_ : string) : list PriceRecord :=
  if String.eqb state_ "" then []
  else List.filter (fun record => Js.strict_eq (state record) (Js.Str state_)) (data svc).

Definition getMeanPrice (svc : t) (state_ : string) : option Js.number :=
  let stateData := getStateData svc state_ in
  if Nat.eqb (length stateData) 0 then None
  else
    let totalPrice := fold_left (fun sum record => Js.add sum (price record)) stateData Js.zero in
    Some (Js.div totalPrice (Js.of_integer (Z.of_nat (length stateData)))).

Definition getAvailableStates (svc : t) : list Js.value := states svc.

(** The calls a client can make on a service, and the service after each. *)
Inductive Call : Type :=
| LoadData (src : Source)
| GetAllData
| GetStateData (state_ : string)
| GetMeanPrice (state_ : string)
| GetAvailableStates.

Definition isLoad (c : Call) : bool :=
  match c with LoadData _ => true | _ => false end.

Definition after (svc : t) (c : Call) : t :=
  match c with
  | LoadData src => snd (loadData src svc)
  | _ => svc
  end.

(** The services a program can hold: a fresh one, and any one after a
    call. *)
Inductive reachable : t -> Prop :=
| reachable_new csvFilePath envPath svc :
    constructor csvFilePath envPath = Some svc -> reachable svc
| reachable_after svc c :
    reachable svc -> reachable (after svc c).

End DataService.

(** ** The words of the specification *)

Module Spec.

(** The loaded records whose region is [r], by [===]. *)
Definition recordsOfRegion (records : list DataService.PriceRecord) (r : string)
  : list DataService.PriceRecord :=
  List.filter (fun record => Js.strict_eq (DataService.state record) (Js.Str r)) records.

(** The arithmetic mean of a sequence of prices: their sum, taken in
    order from 0, over their count. *)
Definition arithmeticMean (prices : list Js.number) : Js.number :=
  Js.div (fold_left Js.add prices Js.zero) (Js.of_integer (Z.of_nat (length prices))).

(** The distinct values of a sequence, each at its first occurrence. *)
Fixpoint distinctFirstSeen (l : list Js.value) : list Js.value :=
  match l with
  | [] => []
  | x :: rest =>
      x :: List.filter (fun y => negb (Js.same_value_zero x y)) (distinctFirstSeen rest)
  end.

(** [c] occurs in [s]. *)
Fixpoint hasChar (c : ascii) (s : string) : bool :=
  match s with
  | String d r => Ascii.eqb d c || hasChar c r
  | EmptyString => false
  end.

(** A header of the form [Bearer <token>]: the scheme, one space, and a
    token that is not empty and holds no space. *)
Definition bearer (header token : string) : Prop :=
  header = "Bearer " ++ token /\ token <> "" /\ hasChar " " token = false.

(** An entry of the multi-user form that yields a credential: after
    trimming, a first and a second field, both not empty. *)
Definition validPair (pair : string) : bool :=
  match Js.split ":" (Js.trim pair) with
  | username :: password :: _ =>
      negb (String.eqb username "") && negb (String.eqb password "")
  | _ => false
  end.

(** The fields of a valid entry. *)
Definition pairFields (pair : string) : string * string :=
  match Js.split ":" (Js.trim pair) with
  | username :: password :: _ => (username, password)
  | _ => ("", "")
  end.

(** Every stored credential has a user name and a password that are not
    empty. *)
Definition credentialsNonempty (users : gmap string string) : Prop :=
  forall u p, users !! u = Some p -> u <> "" /\ p <> "".

Definition startsWithWhitespace (s : string) : bool :=
  match Js.whitespace_prefix s with
  | Some _ => true
  | None => false
  end.

(** A byte that continues the encoding of a character, and a text that
    does not start with one. *)
Definition continuation (c : ascii) : Prop := (128 <= N_of_ascii c < 192)%N.

Definition headLead (t : string) : Prop :=
  match t with
  | String c _ => ~ continuation c
  | EmptyString => True
  end.

(** A payload that may be used at the clock's second: it names no [nbf],
    or one that is a number not after it. *)
Definition started (payload : Jwt.json) (clockTimestamp : Z) : Prop :=
  Jwt.get payload "nbf" = None
  \/ exists nbf, Jwt.get payload "nbf" = Some (Jwt.Number nbf)
                 /\ Jwt.number_le nbf clockTimestamp = true.

(** A payload that has not expired at the clock's second: it names no
    [exp], or one that is a number after it. *)
Definition unexpired (payload : Jwt.json) (clockTimestamp : Z) : Prop :=
  Jwt.get payload "exp" = None
  \/ exists exp, Jwt.get payload "exp" = Some (Jwt.Number exp)
                 /\ Jwt.number_le exp clockTimestamp = false.

(** A cell that is absent or holds the empty text. *)
Definition absentOrEmpty (v : Js.value) : Prop := v = Js.Undefined \/ v = Js.Str "".

(** A cell that is absent or that the parser left as a text. *)
Definition textual (v : Js.value) : Prop :=
  match v with
  | Js.Num _ => False
  | _ => True
  end.

(** A row that passes the row check. *)
Definition accepted (record : DataService.RawRecord) : Prop :=
  DataService.invalid record = false.

Definition allTruthy (l : list Js.value) : Prop :=
  Forall (fun v => Js.truthy v = true) l.

(** The set [states] after the rows' regions were added in order. *)
Definition addAll (regions : list Js.value) (seen : Js.set) : Js.set :=
  fold_left (fun s v => Js.set_add v s) regions seen.

(** What every service a program can hold satisfies: no stored region is
    falsy, and the index lists the distinct regions of the records. *)
Definition consistent (svc : DataService.t) : Prop :=
  allTruthy (map DataService.state (DataService.data svc))
  /\ DataService.states svc
     = distinctFirstSeen (map DataService.state (DataService.data svc)).

End Spec.

(** ** Concrete inputs *)

Module Examples.

Import DataService.

Definition freshService : t :=
  {| data := []; states := []; csvFilePath := "data/prices.csv" |}.

Definition row (region price time : string) : RawRecord :=
  {| raw_state := Js.Str region; raw_price := Js.Str price; raw_timestamp := Js.Str time |}.

(** A row whose price cell reads [Infinity]. *)
Definition infiniteRow : RawRecord := row "NSW" "Infinity" "2025-06-24 00:00:00".

(** Rows as the parser casts them: numeric prices arrive as numbers. *)
Definition castRow (region price time : string) : RawRecord :=
  {| raw_state := Js.Str region;
     raw_price := Js.Num (Js.parseFloat_string price);
     raw_timestamp := Js.Str time |}.

Definition sampleRows : list RawRecord :=
  [ castRow "Vic" "81.52" "2025-06-24 00:00:00";
    castRow "NSW" "90.00" "2025-06-24 00:00:00";
    castRow "Vic" "76.32" "2025-06-24 00:30:00";
    castRow "NSW" "80.00" "2025-06-24 00:30:00" ].

Definition sampleService : t := snd (loadData (Parsed sampleRows) freshService).

(** A configuration whose multi-user form holds no valid pair while the
    legacy form is complete. *)
Definition fallbackEnv : AuthService.Env :=
  {| AuthService.JWT_SECRET := Some "testsecret";
     AuthService.API_USERS := Some "invalidformat";
     AuthService.API_USERNAME := Some "legacyuser";
     AuthService.API_PASSWORD := Some "legacypass" |}.

Definition colonEnv : AuthService.Env :=
  {| AuthService.JWT_SECRET := Some "testsecret";
     AuthService.API_USERS := Some "user:p1:p2";
     AuthService.API_USERNAME := None;
     AuthService.API_PASSWORD := None |}.

Definition testEnv : AuthService.Env :=
  {| AuthService.JWT_SECRET := Some "testsecret123";
     AuthService.API_USERS := Some "testuser:testpass,admin:adminpass";
     AuthService.API_USERNAME := None;
     AuthService.API_PASSWORD := None |}.

Definition testService : AuthService.t :=
  {| AuthService.users := <["admin" := "adminpass"]> (<["testuser" := "testpass"]> ∅);
     AuthService.jwtSecret := "testsecret123" |}.

(** The no-break space U+00A0 and the ideographic space U+3000, as the
    bytes of their encodings. *)
Definition noBreakSpace : string :=
  String (ascii_of_N 194) (String (ascii_of_N 160) "").

Definition ideographicSpace : string :=
  String (ascii_of_N 227) (String (ascii_of_N 128) (String (ascii_of_N 128) "")).

Definition secretOnly (apiUsers legacyUsername legacyPassword : option string)
  : AuthService.Env :=
  {| AuthService.JWT_SECRET := Some "testsecret123";
     AuthService.API_USERS := apiUsers;
     AuthService.API_USERNAME := legacyUsername;
     AuthService.API_PASSWORD := legacyPassword |}.

(** The claims of a token for "testuser", issued at second 100, expiring
    at second 200, and its signed form. *)
Definition oldClaims : Jwt.JWTPayload :=
  {| Jwt.username := "testuser"; Jwt.iat := 100; Jwt.exp := 200 |}.

Definition oldJws : Jwt.jws :=
  {| Jwt.claims := Jwt.object_of oldClaims;
     Jwt.tag := Jwt.HMAC "testsecret123" (Jwt.object_of oldClaims) |}.

(** A payload for "testuser" that expires at second 400 and is not to be
    used before second 300, and its signed form. *)
Definition earlyClaims : Jwt.json :=
  Jwt.JsonObject (<["username" := Jwt.Text "testuser"]>
                    (<["nbf" := Jwt.Number (Jwt.Finite (inject_Z 300))]>
                       (<["exp" := Jwt.Number (Jwt.Finite (inject_Z 400))]> ∅))).

Definition earlyJws : Jwt.jws :=
  {| Jwt.claims := earlyClaims; Jwt.tag := Jwt.HMAC "testsecret123" earlyClaims |}.

(** A payload whose [exp] is a text, the payload [null], and their signed
    forms. *)
Definition textExpClaims : Jwt.json :=
  Jwt.JsonObject (<["username" := Jwt.Text "testuser"]>
                    (<["exp" := Jwt.Text "tomorrow"]> ∅)).

Definition textExpJws : Jwt.jws :=
  {| Jwt.claims := textExpClaims; Jwt.tag := Jwt.HMAC "testsecret123" textExpClaims |}.

Definition nullJws : Jwt.jws :=
  {| Jwt.claims := Jwt.JsonNull; Jwt.tag := Jwt.HMAC "testsecret123" Jwt.JsonNull |}.

(** A payload without [exp], the payload that is the number 0, and their
    signed forms. *)
Definition openClaims : Jwt.json :=
  Jwt.JsonObject (<["username" := Jwt.Text "testuser"]> ∅).

Definition openJws : Jwt.jws :=
  {| Jwt.claims := openClaims; Jwt.tag := Jwt.HMAC "testsecret123" openClaims |}.

Definition zeroJws : Jwt.jws :=
  {| Jwt.claims := Jwt.JsonNumber (Jwt.Finite (inject_Z 0));
     Jwt.tag := Jwt.HMAC "testsecret123" (Jwt.JsonNumber (Jwt.Finite (inject_Z 0))) |}.

(** A file whose only row has a price that is not a number. *)
Definition malformedRows : list RawRecord :=
  [ row "Vic" "invalid_price" "2025-06-24 00:00:00" ].

(** A serialisation that satisfies the laws: the structure is numbered
    and the number is written in binary, lowest bit first. *)
Definition flatNumber : Type := (Z * positive) + bool.

Definition flatMember : Type := string + flatNumber + string.

Definition flatJson : Type :=
  unit + bool + flatNumber + string + string + list (string * flatMember).

Definition flattenNumber (x : Jwt.number) : flatNumber :=
  match x with
  | Jwt.Finite q => inl (Qnum q, Qden q)
  | Jwt.Infinity negative => inr negative
  end.

Definition unflattenNumber (x : flatNumber) : Jwt.number :=
  match x with
  | inl (n, d) => Jwt.Finite (Qmake n d)
  | inr negative => Jwt.Infinity negative
  end.

Definition flattenMember (m : Jwt.member) : flatMember :=
  match m with
  | Jwt.Text s => inl (inl s)
  | Jwt.Number x => inl (inr (flattenNumber x))
  | Jwt.Other text => inr text
  end.

Definition unflattenMember (m : flatMember) : Jwt.member :=
  match m with
  | inl (inl s) => Jwt.Text s
  | inl (inr x) => Jwt.Number (unflattenNumber x)
  | inr text => Jwt.Other text
  end.

Definition flattenJson (v : Jwt.json) : flatJson :=
  match v with
  | Jwt.JsonNull => inl (inl (inl (inl (inl tt))))
  | Jwt.JsonBoolean b => inl (inl (inl (inl (inr b))))
  | Jwt.JsonNumber x => inl (inl (inl (inr (flattenNumber x))))
  | Jwt.JsonString s => inl (inl (inr s))
  | Jwt.JsonArray text => inl (inr text)
  | Jwt.JsonObject members => inr (map_to_list (flattenMember <$> members))
  end.

Definition unflattenJson (v : flatJson) : Jwt.json :=
  match v with
  | inl (inl (inl (inl (inl _)))) => Jwt.JsonNull
  | inl (inl (inl (inl (inr b)))) => Jwt.JsonBoolean b
  | inl (inl (inl (inr x))) => Jwt.JsonNumber (unflattenNumber x)
  | inl (inl (inr s)) => Jwt.JsonString s
  | inl (inr text) => Jwt.JsonArray text
  | inr members => Jwt.JsonObject (unflattenMember <$> list_to_map members)
  end.

Definition flatten (j : Jwt.jws) : flatJson * (string * flatJson) :=
  match Jwt.tag j with
  | Jwt.HMAC key signed => (flattenJson (Jwt.claims j), (key, flattenJson signed))
  end.

Definition unflatten (x : flatJson * (string * flatJson)) : Jwt.jws :=
  let '(c, (key, signed)) := x in
  {| Jwt.claims := unflattenJson c; Jwt.tag := Jwt.HMAC key (unflattenJson signed) |}.

Fixpoint bits (p : positive) : string :=
  match p with
  | xH => "1"
  | xO q => String "0" (bits q)
  | xI q => String "1" (bits q)
  end.

Fixpoint unbits (s : string) : option positive :=
  match s with
  | EmptyString => None
  | String c EmptyString => if Ascii.eqb c "1" then Some xH else None
  | String c r =>
      if Ascii.eqb c "1" then option_map xI (unbits r)
      else if Ascii.eqb c "0" then option_map xO (unbits r)
      else None
  end.

Definition bitCodec : Jwt.Codec :=
  {| Jwt.serialize := fun j => bits (encode (flatten j));
     Jwt.parse := fun s =>
       match unbits s with
       | Some p => option_map unflatten (decode p)
       | None => None
       end |}.

End Examples.

(** ** src/routes/authRoutes.ts *)

Module AuthRoutes.

(** A field of the JSON body of a request: a text; a value that is no text
    and falsy ([undefined], [null], [false], [0]); or a value that is no
    text and truthy ([true], another number, an array, an object). *)
Inductive field : Type :=
| Missing
| Text (s : string)
| NotText.

Inductive Response : Type :=
| Failure (status : Z) (error : string)
| LoginResponse (token : string) (expiresIn : Z).

(** [!f] *)
Definition falsy (f : field) : bool :=
  match f with
  | Missing => true
  | Text s => String.eqb s ""
  | NotText => false
  end.

(** The module's own [authService] variable and its getter. *)
Definition getAuthService (authService : option AuthService.t) (env : AuthService.Env)
  : AuthService.ConfigError + AuthService.t :=
  match authService with
  | Some svc => inr svc
  | None => AuthService.constructor env
  end.

(** The handler of [POST /login]. [body] is [None] when [req.body] is
    undefined. Whatever throws inside the [try] (destructuring an undefined
    body, [trim] on a value that is no text, the construction of the
    service, [jwt.sign]) ends in the 500 answer. *)
Definition login `{Jwt.Codec}
    (authService : option AuthService.t) (env : AuthService.Env)
    (clock : AuthService.Clock) (body : option (field * field))
  : Response * option AuthService.t :=
  match body with
  | None => (Failure 500 "Internal server error", authService)
  | Some (username, password) =>
      if falsy username || falsy password
      then (Failure 400 "Username and password are required", authService)
      else
        match username with
        | Text u =>
            if String.eqb (Js.trim u) ""
            then (Failure 400 "Username and password are required", authService)
            else
              match password with
              | Text p =>
                  if String.eqb (Js.trim p) ""
                  then (Failure 400 "Username and password are required", authService)
                  else
                    match getAuthService authService env with
                    | inl _ => (Failure 500 "Internal server error", authService)
                    | inr svc =>
                        if negb (AuthService.validateCredentials svc (Some u) (Some p))
                        then (Failure 401 "Invalid credentials", Some svc)
                        else
                          match AuthService.generateToken svc u clock with
                          | inl _ => (Failure 500 "Internal server error", Some svc)
                          | inr token => (LoginResponse token (24 * 60 * 60), Some svc)
                          end
                    end
              | _ => (Failure 500 "Internal server error", authService)
              end
        | _ => (Failure 500 "Internal server error", authService)
        end
  end.

End AuthRoutes.

(** ** src/routes/priceRoutes.ts *)

Module PriceRoutes.

(** [req.query.state]: absent, a text, or an array or object. *)
Inductive queryParam : Type :=
| Absent
| Text (s : string)
| NotText.

Inductive Response : Type :=
| Failure (status : Z) (error : string)
| PriceResponse (state : string) (meanPrice : Js.number) (recordCount : nat).

(** The module's [dataService] variable and its getter; [envPath] is
    [process.env.CSV_DATA_PATH]. [None] when the constructor throws. *)
Definition getDataService (dataService : option DataService.t) (envPath : option string)
  : option DataService.t :=
  match dataService with
  | Some svc => Some svc
  | None => DataService.constructor None envPath
  end.

(** The handler of [GET /], behind the gate. [src] is what reading and
    parsing the file gives when [loadData] runs. *)
Definition getPrice
    (dataService : option DataService.t) (envPath : option string)
    (src : DataService.Source) (state : queryParam)
  : Response * option DataService.t :=
  match state with
  | Text st =>
      if String.eqb st "" || String.eqb (Js.trim st) ""
      then (Failure 400 "State query parameter is required", dataService)
      else
        match getDataService dataService envPath with
        | None => (Failure 500 "Internal server error", dataService)
        | Some service =>
            match DataService.loadData src service with
            | (inl _, service') => (Failure 500 "Failed to load price data", Some service')
            | (inr _, service') =>
                match DataService.getMeanPrice service' st with
                | None => (Failure 404 ("No data found for state: " ++ st), Some service')
                | Some meanPrice =>
                    (PriceResponse st meanPrice (length (DataService.getStateData service' st)),
                     Some service')
                end
            end
        end
  | _ => (Failure 400 "State query parameter is required", dataService)
  end.

Record Request : Type := {
  authorization : option string;
  state : queryParam
}.

(** The module variables behind the price routes: the gate's service and
    the data service. *)
Record Modules : Type := {
  authService : option AuthService.t;
  dataService : option DataService.t
}.

(** [priceRouter]: [authMiddleware] is applied to every route, and the
    handler runs when it calls [next()]. *)
Definition priceRouter `{Jwt.Codec}
    (m : Modules) (env : AuthService.Env) (envPath : option string) (now : Z)
    (src : DataService.Source) (req : Request) : Response * Modules :=
  match AuthMiddleware.authMiddleware (authService m) env now (authorization req) with
  | (AuthMiddleware.Json status error, auth') =>
      (Failure status error, {| authService := auth'; dataService := dataService m |})
  | (AuthMiddleware.Next _, auth') =>
      let '(response, data') := getPrice (dataService m) envPath src (state req) in
      (response, {| authService := auth'; dataService := data' |})
  end.

End PriceRoutes.

(** ** Further words for the properties of the services and routes *)

Module Properties.

(** A stored record as the row check leaves it. *)
Definition wellStored (record : DataService.PriceRecord) : Prop :=
  Js.isNaN (DataService.price record) = false
  /\ Js.truthy (DataService.state record) = true
  /\ Js.truthy (DataService.timestamp record) = true.

(** [pair] is a valid entry of the multi-user form for [u] with password [p]. *)
Definition entryFor (u p : string) (pair : string) : Prop :=
  Spec.validPair pair = true /\ Spec.pairFields pair = (u, p).

(** [pair] is a valid entry for the user [u]. *)
Definition entryOf (u : string) (pair : string) : Prop :=
  Spec.validPair pair = true /\ fst (Spec.pairFields pair) = u.


(** The rows of a source whose region is the text [st]. *)
Definition rowsOfRegion (rows : list DataService.RawRecord) (st : string)
  : list DataService.RawRecord :=
  List.filter (fun row => Js.strict_eq (DataService.raw_state row) (Js.Str st)) rows.

(** The number of records of a region that is a text; none for any other
    region. *)
Definition recordCount (svc : DataService.t) (region : Js.value) : nat :=
  match region with
  | Js.Str r => length (DataService.getStateData svc r)
  | _ => 0%nat
  end.

(** A text made of white space only (the empty text included). *)
Definition allWhitespace (s : string) : bool := Js.blank s.

(** A [state] parameter the handler refuses: no text, or a blank one. *)
Definition blankState (q : PriceRoutes.queryParam) : Prop :=
  match q with
  | PriceRoutes.Text st => Js.trim st = ""
  | _ => True
  end.

Definition isText (v : Js.value) : Prop :=
  match v with Js.Str _ => True | _ => False end.

End Properties.

(** ** Further concrete inputs *)

Module Scenarios.

(** An entry list in which "admin" occurs twice. *)
Definition duplicateEntries : string := "admin:first,guest:pw,admin:second".

Definition duplicateEnv : AuthService.Env :=
  {| AuthService.JWT_SECRET := Some "testsecret";
     AuthService.API_USERS := Some duplicateEntries;
     AuthService.API_USERNAME := None;
     AuthService.API_PASSWORD := None |}.

Definition duplicateService : AuthService.t :=
  {| AuthService.users :=
       <["admin" := "second"]> (<["guest" := "pw"]> (<["admin" := "first"]> ∅));
     AuthService.jwtSecret := "testsecret" |}.

Definition otherEnv : AuthService.Env :=
  {| AuthService.JWT_SECRET := Some "anothersecret";
     AuthService.API_USERS := Some "testuser:testpass";
     AuthService.API_USERNAME := None;
     AuthService.API_PASSWORD := None |}.

Definition otherService : AuthService.t :=
  {| AuthService.users := <["testuser" := "testpass"]> ∅;
     AuthService.jwtSecret := "anothersecret" |}.

Definition noModules : PriceRoutes.Modules :=
  {| PriceRoutes.authService := None; PriceRoutes.dataService := None |}.

End Scenarios.

(** Unfolds the tests on the bytes of a character into comparisons. *)
Ltac bytes :=
  unfold Js.whitespace1, Js.whitespace2, Js.whitespace3, Spec.continuation in *;
  repeat match goal with
         | H : _ && _ = true |- _ => apply andb_true_iff in H; destruct H
         | H : _ || _ = true |- _ => apply orb_true_iff in H; destruct H
         | H : _ || _ = false |- _ => apply orb_false_iff in H; destruct H
         | H : (_ =? _)%N = true |- _ => apply N.eqb_eq in H
         | H : (_ =? _)%N = false |- _ => apply N.eqb_neq in H
         | H : (_ <=? _)%N = true |- _ => apply N.leb_le in H
         | H : (_ <=? _)%N = false |- _ => apply N.leb_gt in H
         end.

(** ** Facts about the runtime *)

Section JsFacts.

Lemma number_eqb_eq (x y : Js.number) :
  Js.truthy (Js.Num x) = true -> Js.number_eqb x y = true -> x = y.
Proof.
  unfold Js.number_eqb, SFeqb.
  destruct x as [sx|sx| |sx mx ex], y as [sy|sy| |sy my ey]; simpl; try discriminate;
    try (destruct sx; discriminate); try (destruct sx, sy; (discriminate || reflexivity)).
  intros _.
  destruct sx, sy; try discriminate;
    destruct (Z.compare ex ey) eqn:He; try discriminate;
    apply Z.compare_eq in He; subst ey;
    destruct (Pos.compare_cont Eq mx my) eqn:Hm; try discriminate;
    apply Pos.compare_eq in Hm; subst my; reflexivity.
Qed.

Lemma number_eqb_refl (x : Js.number) :
  Js.isNaN x = false -> Js.number_eqb x x = true.
Proof.
  unfold Js.number_eqb, SFeqb.
  destruct x as [sx|sx| |sx mx ex]; simpl; try discriminate; intros _.
  - reflexivity.
  - destruct sx; reflexivity.
  - destruct sx; rewrite Z.compare_refl;
      change (Pos.compare_cont Eq mx mx) with (Pos.compare mx mx);
      rewrite Pos.compare_refl; reflexivity.
Qed.

Lemma same_value_zero_refl (v : Js.value) : Js.same_value_zero v v = true.
Proof.
  destruct v as [|s|x]; simpl; [reflexivity|apply String.eqb_refl|].
  destruct (Js.isNaN x) eqn:Hn.
  - rewrite orb_true_r. reflexivity.
  - rewrite number_eqb_refl by assumption. reflexivity.
Qed.

Lemma same_value_zero_eq (a b : Js.value) :
  Js.truthy a = true -> Js.same_value_zero a b = true -> a = b.
Proof.
  destruct a as [|s|x], b as [|t|y]; simpl; try discriminate.
  - intros _ H. apply String.eqb_eq in H. congruence.
  - intros Ht H. f_equal. apply number_eqb_eq; [exact Ht|].
    apply orb_true_iff in H. destruct H as [H|H]; [exact H|].
    apply andb_true_iff in H. destruct H as [H _].
    destruct x; simpl in *; try discriminate.
Qed.

Lemma strict_eq_Str (v : Js.value) (r : string) :
  Js.strict_eq v (Js.Str r) = true <-> v = Js.Str r.
Proof.
  destruct v as [|s|x]; simpl; split; try discriminate.
  - intros H. apply String.eqb_eq in H. congruence.
  - intros H. injection H as ->. apply String.eqb_refl.
Qed.

Lemma set_has_app (s1 s2 : Js.set) (v : Js.value) :
  Js.set_has (s1 ++ s2)%list v = Js.set_has s1 v || Js.set_has s2 v.
Proof. unfold Js.set_has. apply existsb_app. Qed.

Lemma set_has_In (s : Js.set) (v : Js.value) :
  Forall (fun e => Js.truthy e = true) s ->
  Js.set_has s v = true <-> In v s.
Proof.
  intros Hs. unfold Js.set_has. rewrite existsb_exists. split.
  - intros [e [He Hv]]. rewrite Forall_forall in Hs.
    apply same_value_zero_eq in Hv; [subst; exact He|].
    apply Hs. apply list_elem_of_In. exact He.
  - intros Hv. exists v. split; [exact Hv|apply same_value_zero_refl].
Qed.

End JsFacts.

(** ** White space and trimming *)

Section WhitespaceFacts.

Import Spec.


Lemma append_cons (c : ascii) (a b : string) : String c a ++ b = String c (a ++ b).
Proof. reflexivity. Qed.

Lemma trimStart_prefix (s : string) :
  Js.trimStart s = match Js.whitespace_prefix s with Some r => Js.trimStart r | None => s end.
Proof.
  destruct s as [|c [|d [|e r]]]; simpl; try reflexivity.
  - destruct (Js.whitespace1 c); reflexivity.
  - destruct (Js.whitespace1 c); [reflexivity|]. destruct (Js.whitespace2 c d); reflexivity.
  - destruct (Js.whitespace1 c); [reflexivity|]. destruct (Js.whitespace2 c d); [reflexivity|].
    destruct (Js.whitespace3 c d e); reflexivity.
Qed.

Lemma blank_prefix (s : string) :
  Js.blank s = match s with
            | EmptyString => true
            | _ => match Js.whitespace_prefix s with Some r => Js.blank r | None => false end
            end.
Proof.
  destruct s as [|c [|d [|e r]]]; simpl; try reflexivity.
  - destruct (Js.whitespace1 c); reflexivity.
  - destruct (Js.whitespace1 c); [reflexivity|]. destruct (Js.whitespace2 c d); reflexivity.
  - destruct (Js.whitespace1 c); [reflexivity|]. destruct (Js.whitespace2 c d); [reflexivity|].
    destruct (Js.whitespace3 c d e); reflexivity.
Qed.

Lemma whitespace1_low (c : ascii) : Js.whitespace1 c = true -> (N_of_ascii c < 128)%N.
Proof. intros H. bytes; lia. Qed.

Lemma whitespace2_bytes (c d : ascii) :
  Js.whitespace2 c d = true -> (192 <= N_of_ascii c)%N /\ continuation d.
Proof. intros H. bytes. lia. Qed.

Lemma whitespace3_bytes (c d e : ascii) :
  Js.whitespace3 c d e = true -> (192 <= N_of_ascii c)%N /\ continuation d /\ continuation e.
Proof. intros H. bytes; lia. Qed.

Lemma whitespace_prefix_length (s r : string) :
  Js.whitespace_prefix s = Some r -> (String.length r < String.length s)%nat.
Proof.
  destruct s as [|c [|d [|e r3]]]; simpl; try discriminate.
  - destruct (Js.whitespace1 c); intros [= <-]; simpl; lia.
  - destruct (Js.whitespace1 c); [intros [= <-]; simpl; lia|].
    destruct (Js.whitespace2 c d); intros [= <-]; simpl; lia.
  - destruct (Js.whitespace1 c); [intros [= <-]; simpl; lia|].
    destruct (Js.whitespace2 c d); [intros [= <-]; simpl; lia|].
    destruct (Js.whitespace3 c d e); intros [= <-]; simpl; lia.
Qed.

Lemma whitespace_prefix_append (s r t : string) :
  Js.whitespace_prefix s = Some r -> Js.whitespace_prefix (s ++ t) = Some (r ++ t).
Proof.
  destruct s as [|c [|d [|e r3]]]; simpl; try discriminate.
  - destruct (Js.whitespace1 c); [|discriminate]. intros [= <-]. reflexivity.
  - destruct (Js.whitespace1 c); [intros [= <-]; reflexivity|].
    destruct (Js.whitespace2 c d); [|discriminate]. intros [= <-]. reflexivity.
  - destruct (Js.whitespace1 c); [intros [= <-]; reflexivity|].
    destruct (Js.whitespace2 c d); [intros [= <-]; reflexivity|].
    destruct (Js.whitespace3 c d e); [|discriminate]. intros [= <-]. reflexivity.
Qed.

Lemma whitespace_prefix_none_append (s t : string) :
  Js.whitespace_prefix s = None -> s <> "" -> headLead t ->
  Js.whitespace_prefix (s ++ t) = None.
Proof.
  intros Hs Hne Ht.
  destruct s as [|c [|d [|e r3]]]; [congruence| | |]; simpl in *.
  - destruct (Js.whitespace1 c); [discriminate|].
    destruct t as [|x [|y t]]; simpl in *; [reflexivity| |].
    + destruct (Js.whitespace2 c x) eqn:H2; [|reflexivity].
      apply whitespace2_bytes in H2. tauto.
    + destruct (Js.whitespace2 c x) eqn:H2; [apply whitespace2_bytes in H2; tauto|].
      destruct (Js.whitespace3 c x y) eqn:H3; [|reflexivity].
      apply whitespace3_bytes in H3. tauto.
  - destruct (Js.whitespace1 c); [discriminate|].
    destruct (Js.whitespace2 c d); [discriminate|].
    destruct t as [|x t]; simpl in *; [reflexivity|].
    destruct (Js.whitespace3 c d x) eqn:H3; [|reflexivity].
    apply whitespace3_bytes in H3. tauto.
  - destruct (Js.whitespace1 c); [discriminate|].
    destruct (Js.whitespace2 c d); [discriminate|].
    destruct (Js.whitespace3 c d e); [discriminate|reflexivity].
Qed.

Lemma whitespace_prefix_head (c : ascii) (r r' : string) :
  Js.whitespace_prefix (String c r) = Some r' -> ~ continuation c.
Proof.
  simpl. destruct (Js.whitespace1 c) eqn:H1.
  - intros _ Hc. apply whitespace1_low in H1. unfold continuation in Hc. lia.
  - destruct r as [|d [|e r3]]; [discriminate| |].
    + destruct (Js.whitespace2 c d) eqn:H2; [|discriminate]. intros _ Hc.
      apply whitespace2_bytes in H2. unfold continuation in Hc. lia.
    + destruct (Js.whitespace2 c d) eqn:H2.
      * intros _ Hc. apply whitespace2_bytes in H2. unfold continuation in Hc. lia.
      * destruct (Js.whitespace3 c d e) eqn:H3; [|discriminate]. intros _ Hc.
        apply whitespace3_bytes in H3. unfold continuation in Hc. lia.
Qed.

Lemma blank_headLead (t : string) : Js.blank t = true -> headLead t.
Proof.
  destruct t as [|c r]; [exact (fun _ => I)|]. rewrite blank_prefix.
  destruct (Js.whitespace_prefix (String c r)) as [r'|] eqn:Hp; [|discriminate].
  intros _. exact (whitespace_prefix_head c r r' Hp).
Qed.

(** Induction on the length of a text. *)
Lemma string_length_ind (P : string -> Prop) :
  (forall s, (forall r, (String.length r < String.length s)%nat -> P r) -> P s) ->
  forall s, P s.
Proof.
  intros Hstep s. remember (String.length s) as n eqn:Hn. revert s Hn.
  induction n as [n IH] using lt_wf_ind. intros s ->.
  apply Hstep. intros r Hr. exact (IH _ Hr r eq_refl).
Qed.

Lemma blank_cons (c : ascii) (r : string) :
  Js.blank (String c r) =
  match Js.whitespace_prefix (String c r) with Some r' => Js.blank r' | None => false end.
Proof. exact (blank_prefix (String c r)). Qed.

Lemma blank_append (a w : string) : Js.blank w = true -> Js.blank (a ++ w) = Js.blank a.
Proof.
  intros Hw. induction a as [a IH] using string_length_ind.
  destruct a as [|c a']; [exact Hw|].
  change (String c a' ++ w) with (String c (a' ++ w)).
  rewrite !blank_cons.
  change (String c (a' ++ w)) with (String c a' ++ w).
  destruct (Js.whitespace_prefix (String c a')) as [r|] eqn:Hp.
  - rewrite (whitespace_prefix_append _ _ w Hp).
    apply IH. exact (whitespace_prefix_length _ _ Hp).
  - rewrite (whitespace_prefix_none_append _ w Hp);
      [reflexivity|discriminate|apply blank_headLead; exact Hw].
Qed.

Lemma trimStart_blank_append (w s : string) :
  Js.blank w = true -> Js.trimStart (w ++ s) = Js.trimStart s.
Proof.
  induction w as [w IH] using string_length_ind. intros Hw.
  destruct w as [|c w']; [reflexivity|].
  rewrite blank_prefix in Hw.
  destruct (Js.whitespace_prefix (String c w')) as [r|] eqn:Hp; [|discriminate].
  rewrite (trimStart_prefix (String c w' ++ s)), (whitespace_prefix_append _ _ s Hp).
  apply IH; [exact (whitespace_prefix_length _ _ Hp)|exact Hw].
Qed.

Lemma append_empty_r (s : string) : s ++ "" = s.
Proof. induction s as [|c s IH]; [reflexivity|]. rewrite append_cons, IH. reflexivity. Qed.

Lemma trimStart_blank (w : string) : Js.blank w = true -> Js.trimStart w = "".
Proof.
  intros Hw. rewrite <- (append_empty_r w) at 1. rewrite (trimStart_blank_append w "" Hw).
  reflexivity.
Qed.

Lemma trimStart_nonblank_append (s t : string) :
  Js.blank t = true -> Js.blank s = false -> Js.trimStart (s ++ t) = Js.trimStart s ++ t.
Proof.
  intros Ht. induction s as [s IH] using string_length_ind. intros Hs.
  destruct s as [|c s']; [discriminate|].
  rewrite blank_prefix in Hs.
  rewrite (trimStart_prefix (String c s')), (trimStart_prefix (String c s' ++ t)).
  destruct (Js.whitespace_prefix (String c s')) as [r|] eqn:Hp.
  - rewrite (whitespace_prefix_append _ _ t Hp).
    apply IH; [exact (whitespace_prefix_length _ _ Hp)|exact Hs].
  - rewrite (whitespace_prefix_none_append _ t Hp);
      [reflexivity|discriminate|apply blank_headLead; exact Ht].
Qed.

Lemma trimEnd_cons (c : ascii) (r : string) :
  Js.trimEnd (String c r) = if Js.blank (String c r) then "" else String c (Js.trimEnd r).
Proof. reflexivity. Qed.

Lemma trimEnd_blank (w : string) : Js.blank w = true -> Js.trimEnd w = "".
Proof.
  intros Hw. destruct w as [|c r]; [reflexivity|].
  rewrite trimEnd_cons, Hw. reflexivity.
Qed.

Lemma trimEnd_blank_append (s w : string) :
  Js.blank w = true -> Js.trimEnd (s ++ w) = Js.trimEnd s.
Proof.
  intros Hw. induction s as [|c s IH]; [exact (trimEnd_blank w Hw)|].
  change (String c s ++ w) with (String c (s ++ w)).
  rewrite !trimEnd_cons.
  change (String c (s ++ w)) with (String c s ++ w).
  rewrite (blank_append _ _ Hw), IH. reflexivity.
Qed.

Lemma append_assoc (a b c : string) : (a ++ b) ++ c = a ++ (b ++ c).
Proof. induction a as [|x a IH]; [reflexivity|]. rewrite !append_cons, IH. reflexivity. Qed.

Lemma trim_blank (w : string) : Js.blank w = true -> Js.trim w = "".
Proof. intros Hw. unfold Js.trim. rewrite (trimStart_blank w Hw). reflexivity. Qed.

Lemma blank_trimStart (s : string) : Js.blank (Js.trimStart s) = Js.blank s.
Proof.
  induction s as [s IH] using string_length_ind.
  destruct s as [|c r]; [reflexivity|].
  rewrite trimStart_prefix, (blank_cons c r).
  destruct (Js.whitespace_prefix (String c r)) as [r'|] eqn:Hp.
  - apply IH. exact (whitespace_prefix_length _ _ Hp).
  - rewrite blank_cons, Hp. reflexivity.
Qed.

(** A text trims to nothing exactly when it is made of white space. *)
Lemma trim_empty_iff (s : string) : Js.trim s = "" <-> Js.blank s = true.
Proof.
  split; [|apply trim_blank].
  unfold Js.trim. intros H. rewrite <- blank_trimStart.
  destruct (Js.trimStart s) as [|c r]; [reflexivity|].
  rewrite trimEnd_cons in H.
  destruct (Js.blank (String c r)); [reflexivity|discriminate].
Qed.

Lemma trim_padded (before s after : string) :
  Js.blank before = true -> Js.blank after = true ->
  Js.trim (before ++ s ++ after) = Js.trim s.
Proof.
  intros Hb Ha. unfold Js.trim. rewrite (trimStart_blank_append before _ Hb).
  destruct (Js.blank s) eqn:Hs.
  - rewrite (trimStart_blank s Hs).
    rewrite trimStart_blank; [reflexivity|].
    rewrite (blank_append s after Ha). exact Hs.
  - rewrite (trimStart_nonblank_append s after Ha Hs).
    apply trimEnd_blank_append. exact Ha.
Qed.

Lemma whitespace_prefix_hasChar (x : ascii) (s r : string) :
  Js.whitespace1 x = false -> (N_of_ascii x < 128)%N ->
  Js.whitespace_prefix s = Some r -> hasChar x s = hasChar x r.
Proof.
  intros Hx Hlow.
  assert (Hne : forall c, Js.whitespace1 c = true -> Ascii.eqb c x = false).
  { intros c Hc. destruct (Ascii.eqb_spec c x) as [->|]; [congruence|reflexivity]. }
  assert (Hhi : forall c, (128 <= N_of_ascii c)%N -> Ascii.eqb c x = false).
  { intros c Hc. destruct (Ascii.eqb_spec c x) as [->|]; [lia|reflexivity]. }
  destruct s as [|c [|d [|e r3]]]; simpl; try discriminate.
  - destruct (Js.whitespace1 c) eqn:H1; [|discriminate]. intros [= <-].
    rewrite (Hne c H1). reflexivity.
  - destruct (Js.whitespace1 c) eqn:H1; [intros [= <-]; rewrite (Hne c H1); reflexivity|].
    destruct (Js.whitespace2 c d) eqn:H2; [|discriminate]. intros [= <-].
    apply whitespace2_bytes in H2. unfold continuation in H2.
    rewrite (Hhi c), (Hhi d) by lia. reflexivity.
  - destruct (Js.whitespace1 c) eqn:H1; [intros [= <-]; rewrite (Hne c H1); reflexivity|].
    destruct (Js.whitespace2 c d) eqn:H2.
    + intros [= <-]. apply whitespace2_bytes in H2. unfold continuation in H2.
      rewrite (Hhi c), (Hhi d) by lia. reflexivity.
    + destruct (Js.whitespace3 c d e) eqn:H3; [|discriminate]. intros [= <-].
      apply whitespace3_bytes in H3. unfold continuation in H3.
      rewrite (Hhi c), (Hhi d), (Hhi e) by lia. reflexivity.
Qed.

Lemma blank_hasChar (x : ascii) (s : string) :
  Js.whitespace1 x = false -> (N_of_ascii x < 128)%N ->
  Js.blank s = true -> hasChar x s = false.
Proof.
  intros Hx Hlow. induction s as [s IH] using string_length_ind. intros Hs.
  destruct s as [|c r]; [reflexivity|].
  rewrite blank_cons in Hs.
  destruct (Js.whitespace_prefix (String c r)) as [r'|] eqn:Hp; [|discriminate].
  rewrite (whitespace_prefix_hasChar x _ _ Hx Hlow Hp).
  apply IH; [exact (whitespace_prefix_length _ _ Hp)|exact Hs].
Qed.

Lemma hasChar_append (x : ascii) (a b : string) :
  hasChar x (a ++ b) = hasChar x a || hasChar x b.
Proof.
  induction a as [|c a IH]; [reflexivity|].
  rewrite append_cons. simpl. rewrite IH, orb_assoc. reflexivity.
Qed.

Lemma trimEnd_append (x : ascii) (a b : string) :
  Js.whitespace1 x = false -> (N_of_ascii x < 128)%N ->
  Js.trimEnd (a ++ String x b) = a ++ String x (Js.trimEnd b).
Proof.
  intros Hx Hlow.
  assert (Hnb : forall a, Js.blank (a ++ String x b) = false).
  { intros a0. destruct (Js.blank (a0 ++ String x b)) eqn:Hb; [|reflexivity].
    apply (blank_hasChar x _ Hx Hlow) in Hb. rewrite hasChar_append in Hb.
    simpl in Hb. rewrite Ascii.eqb_refl, orb_true_r in Hb. discriminate. }
  induction a as [|c a IH].
  - change ("" ++ String x b) with (String x b). rewrite trimEnd_cons.
    rewrite (Hnb ""%string : Js.blank (String x b) = false). reflexivity.
  - change (String c a ++ String x b) with (String c (a ++ String x b)).
    rewrite trimEnd_cons.
    change (String c (a ++ String x b)) with (String c a ++ String x b).
    rewrite (Hnb (String c a)), IH. reflexivity.
Qed.

Lemma trimStart_id (u s : string) :
  u <> "" -> startsWithWhitespace u = false -> headLead s ->
  Js.trimStart (u ++ s) = u ++ s.
Proof.
  intros Hne Hu Hs. unfold startsWithWhitespace in Hu.
  destruct (Js.whitespace_prefix u) eqn:Hp; [discriminate|].
  rewrite trimStart_prefix, (whitespace_prefix_none_append u s Hp Hne Hs). reflexivity.
Qed.

End WhitespaceFacts.

(** ** Facts about the dataset service *)

Section DataServiceFacts.

Import DataService Spec.

Lemma mapRecords_spec (records : list RawRecord) :
  forall seen,
    match mapRecords records seen with
    | inr (out, seen') =>
        Forall accepted records
        /\ out = map toPriceRecord records
        /\ seen' = addAll (map raw_state records) seen
    | inl e =>
        exists record, e = Error None (InvalidDataFormat record)
                       /\ In record records /\ invalid record = true
    end.
Proof.
  induction records as [|record rest IH]; intros seen; simpl.
  - repeat split. constructor.
  - destruct (invalid record) eqn:Hinv.
    + exists record. auto.
    + specialize (IH (Js.set_add (raw_state record) seen)).
      destruct (mapRecords rest (Js.set_add (raw_state record) seen)) as [e|[out seen']].
      * destruct IH as (r & -> & Hin & Hr). exists r. auto.
      * destruct IH as (Hall & -> & ->). repeat split.
        constructor; assumption.
Qed.

Lemma mapRecords_accepts (records : list RawRecord) (seen : Js.set) :
  Forall accepted records ->
  mapRecords records seen
  = inr (map toPriceRecord records, addAll (map raw_state records) seen).
Proof.
  revert seen. induction records as [|record rest IH]; intros seen Hall; simpl.
  - reflexivity.
  - inversion Hall as [|? ? Hr Hrest]; subst. unfold accepted in Hr. rewrite Hr.
    rewrite IH by assumption. reflexivity.
Qed.

Lemma mapRecords_rejects (records : list RawRecord) (seen : Js.set) :
  Exists (fun record => invalid record = true) records ->
  exists record, In record records /\ invalid record = true
                 /\ mapRecords records seen = inl (Error None (InvalidDataFormat record)).
Proof.
  intros Hex. pose proof (mapRecords_spec records seen) as H.
  destruct (mapRecords records seen) as [e|[out seen']].
  - destruct H as (r & -> & Hin & Hr). exists r. auto.
  - destruct H as (Hall & _). exfalso.
    apply Exists_exists in Hex. destruct Hex as (r & Hin & Hr).
    rewrite Forall_forall in Hall. specialize (Hall r Hin).
    unfold accepted in Hall. congruence.
Qed.

Lemma accepted_truthy (record : RawRecord) :
  accepted record -> Js.truthy (raw_state record) = true.
Proof.
  unfold accepted, invalid. intros H.
  apply orb_false_iff in H. destruct H as [H _].
  apply orb_false_iff in H. destruct H as [_ H].
  apply negb_false_iff in H. exact H.
Qed.

Lemma filter_filter_andb {A : Type} (f g : A -> bool) (l : list A) :
  List.filter f (List.filter g l) = List.filter (fun x => g x && f x) l.
Proof.
  induction l as [|a l IH]; simpl; [reflexivity|].
  destruct (g a); simpl; [destruct (f a)|]; rewrite ?IH; reflexivity.
Qed.

Lemma filter_ext_In' {A : Type} (f g : A -> bool) (l : list A) :
  (forall x, In x l -> f x = g x) -> List.filter f l = List.filter g l.
Proof.
  induction l as [|a l IH]; simpl; intros H; [reflexivity|].
  rewrite (H a) by auto. rewrite IH by auto. reflexivity.
Qed.

Lemma distinctFirstSeen_incl (l : list Js.value) (v : Js.value) :
  In v (distinctFirstSeen l) -> In v l.
Proof.
  induction l as [|x l IH]; simpl; [tauto|].
  intros [H|H]; [auto|]. right. apply IH.
  apply List.filter_In in H. tauto.
Qed.

Lemma distinctFirstSeen_complete (l : list Js.value) (v : Js.value) :
  allTruthy l -> In v l -> In v (distinctFirstSeen l).
Proof.
  induction l as [|x l IH]; simpl; [tauto|].
  intros Hall Hin. inversion Hall as [|? ? Hx Hl]; subst.
  destruct (Js.same_value_zero x v) eqn:Hsv.
  - left. apply same_value_zero_eq; assumption.
  - right. apply List.filter_In. split.
    + apply IH; [assumption|]. destruct Hin as [->|Hin]; [|assumption].
      rewrite same_value_zero_refl in Hsv. discriminate.
    + rewrite Hsv. reflexivity.
Qed.

Lemma distinctFirstSeen_NoDup (l : list Js.value) :
  List.NoDup (distinctFirstSeen l).
Proof.
  induction l as [|x l IH]; simpl; constructor.
  - intros H. apply List.filter_In in H. destruct H as [_ H].
    rewrite same_value_zero_refl in H. discriminate.
  - apply List.NoDup_filter. exact IH.
Qed.

(** Adding the regions to the set one by one keeps what was there and
    appends the new ones at their first occurrence. *)
Lemma addAll_distinctFirstSeen (l : list Js.value) :
  allTruthy l ->
  forall seen, allTruthy seen ->
    addAll l seen
    = (seen ++ List.filter (fun y => negb (Js.set_has seen y)) (distinctFirstSeen l))%list.
Proof.
  induction l as [|x l IH]; intros Hall seen Hseen; simpl.
  - rewrite app_nil_r. reflexivity.
  - inversion Hall as [|? ? Hx Hl]; subst.
    unfold addAll in *. simpl. unfold Js.set_add at 2.
    destruct (Js.set_has seen x) eqn:Hhas; simpl.
    + rewrite IH by assumption. f_equal.
      rewrite filter_filter_andb. apply filter_ext_In'. intros y _.
      destruct (Js.same_value_zero x y) eqn:Hsv; simpl; [|reflexivity].
      apply same_value_zero_eq in Hsv; [|assumption]. subst y.
      rewrite Hhas. reflexivity.
    + rewrite IH; [|assumption|].
      * rewrite <- app_assoc. simpl. do 2 f_equal.
        rewrite filter_filter_andb. apply filter_ext_In'. intros y _.
        rewrite set_has_app. unfold Js.set_has at 2. simpl.
        rewrite orb_false_r. rewrite negb_orb. apply andb_comm.
      * apply Forall_app. split; [assumption|]. constructor; [assumption|constructor].
Qed.

Lemma addAll_empty (l : list Js.value) :
  allTruthy l -> addAll l [] = distinctFirstSeen l.
Proof.
  intros Hall. rewrite addAll_distinctFirstSeen; [|assumption|constructor].
  simpl. induction (distinctFirstSeen l) as [|y d IHd]; simpl; congruence.
Qed.

Lemma map_state_toPriceRecord (records : list RawRecord) :
  map state (map toPriceRecord records) = map raw_state records.
Proof. rewrite map_map. reflexivity. Qed.

Lemma accepted_allTruthy (records : list RawRecord) :
  Forall accepted records -> allTruthy (map raw_state records).
Proof.
  induction 1 as [|record rest Hr _ IH]; simpl; constructor.
  - apply accepted_truthy. exact Hr.
  - exact IH.
Qed.

Lemma loadData_cases (src : Source) (svc : t) :
  (exists e, loadData src svc = (inl e, svc))
  \/ (exists records,
        src = Parsed records /\ Forall accepted records
        /\ loadData src svc
           = (inr tt, {| data := map toPriceRecord records;
                         states := distinctFirstSeen (map raw_state records);
                         csvFilePath := csvFilePath svc |})).
Proof.
  destruct src as [e|e|records]; simpl; [left; eauto|left; eauto|].
  pose proof (mapRecords_spec records []) as H.
  destruct (mapRecords records []) as [e|[out seen']].
  - left. eauto.
  - destruct H as (Hall & -> & ->). right. exists records.
    rewrite addAll_empty by (apply accepted_allTruthy; exact Hall). auto.
Qed.

Lemma loadData_consistent (src : Source) (svc : t) :
  consistent svc -> consistent (snd (loadData src svc)).
Proof.
  intros Hc. destruct (loadData_cases src svc) as [[e ->]|(records & _ & Hall & ->)];
    [exact Hc|]. simpl. unfold consistent. simpl.
  rewrite map_state_toPriceRecord. split; [|reflexivity].
  apply accepted_allTruthy. exact Hall.
Qed.

Lemma reachable_consistent (svc : t) : reachable svc -> consistent svc.
Proof.
  induction 1 as [path envPath svc Hnew|svc c _ IH].
  - unfold constructor in Hnew.
    destruct (negb (Js.nonempty path) && negb (Js.nonempty envPath)); [discriminate|].
    injection Hnew as <-. split; [constructor|reflexivity].
  - destruct c; simpl; try exact IH. apply loadData_consistent. exact IH.
Qed.

Lemma fold_left_prices (records : list PriceRecord) (acc : Js.number) :
  fold_left (fun sum record => Js.add sum (price record)) records acc
  = fold_left Js.add (map price records) acc.
Proof.
  revert acc. induction records as [|r l IH]; intros acc; simpl; [reflexivity|apply IH].
Qed.

End DataServiceFacts.

(** ** The dataset service: mean price, loading, region index *)

Section DataServiceTheorems.

Import DataService Spec.

(** C1. On every service a program can hold (fresh, or after any loads),
    [getMeanPrice r] is the arithmetic mean of the prices of exactly the
    loaded records whose region is [r] by [===]; it is [None] (no number,
    no error) when no record matches: for the empty string, for a region
    without records, and before any load. *)
Theorem getMeanPrice_arithmetic_mean (svc : t) (Hsvc : reachable svc) (r : string) :
  getMeanPrice svc r
  = match recordsOfRegion (data svc) r with
    | [] => None
    | matching => Some (arithmeticMean (map price matching))
    end
  /\ (recordsOfRegion (data svc) r = [] -> getMeanPrice svc r = None)
  /\ (r = "" -> recordsOfRegion (data svc) r = [] /\ getMeanPrice svc r = None)
  /\ (data svc = [] -> getMeanPrice svc r = None).
Proof.
  assert (Hstate : getStateData svc r = recordsOfRegion (data svc) r).
  { unfold getStateData, recordsOfRegion.
    destruct (String.eqb_spec r "") as [->|Hr]; [|reflexivity].
    destruct (reachable_consistent svc Hsvc) as [Htruthy _].
    symmetry. induction (data svc) as [|record l IH]; simpl; [reflexivity|].
    inversion Htruthy as [|? ? Hrec Hl]; subst.
    destruct (Js.strict_eq (state record) (Js.Str "")) eqn:Heq.
    - apply strict_eq_Str in Heq. rewrite Heq in Hrec. discriminate.
    - apply IH. exact Hl. }
  assert (Hmean : getMeanPrice svc r
                  = match recordsOfRegion (data svc) r with
                    | [] => None
                    | matching => Some (arithmeticMean (map price matching))
                    end).
  { unfold getMeanPrice. rewrite Hstate.
    destruct (recordsOfRegion (data svc) r) as [|record l] eqn:Hm; [reflexivity|].
    cbn [length Nat.eqb]. unfold arithmeticMean.
    rewrite fold_left_prices, length_map. reflexivity. }
  split; [exact Hmean|]. split; [|split].
  - intros Hnone. rewrite Hmean, Hnone. reflexivity.
  - intros ->. assert (Hnone : recordsOfRegion (data svc) "" = []).
    { rewrite <- Hstate. unfold getStateData. reflexivity. }
    split; [exact Hnone|]. rewrite Hmean, Hnone. reflexivity.
  - intros Hempty. rewrite Hmean, Hempty. reflexivity.
Qed.

(** C2. A load is all or nothing: a source with a row that fails the row
    check fails the load; whenever a load fails (for that or any other
    reason) the service is exactly what it was before the call; when it
    succeeds the records and the region index are both those of the new
    source. *)
Theorem loadData_all_or_nothing (src : Source) (svc : t) :
  (forall records,
      src = Parsed records ->
      Exists (fun record => invalid record = true) records ->
      exists e, loadData src svc = (inl e, svc))
  /\ (forall e, fst (loadData src svc) = inl e -> snd (loadData src svc) = svc)
  /\ (fst (loadData src svc) = inr tt ->
      exists records,
        src = Parsed records
        /\ data (snd (loadData src svc)) = map toPriceRecord records
        /\ states (snd (loadData src svc)) = distinctFirstSeen (map raw_state records)
        /\ states (snd (loadData src svc))
           = distinctFirstSeen (map state (data (snd (loadData src svc))))).
Proof.
  split; [|split].
  - intros records -> Hex. simpl.
    destruct (mapRecords_rejects records [] Hex) as (record & _ & _ & ->).
    eauto.
  - intros e He.
    destruct (loadData_cases src svc) as [[e' H]|(records & _ & _ & H)];
      rewrite H in *; [reflexivity|discriminate].
  - intros Hok.
    destruct (loadData_cases src svc) as [[e' H]|(records & -> & _ & H)];
      rewrite H in *; [discriminate|].
    exists records. simpl. rewrite map_state_toPriceRecord. auto.
Qed.

(** C9. After a successful load the region index is the sequence of the
    distinct regions of the records in first-seen order: no region twice,
    every record's region in it, every entry the region of some record;
    and [getAvailableStates] returns that sequence after any calls that
    are not a load. *)
Theorem region_index_after_load (src : Source) (svc : t)
    (Hok : fst (loadData src svc) = inr tt) :
  let svc' := snd (loadData src svc) in
  states svc' = distinctFirstSeen (map state (data svc'))
  /\ List.NoDup (states svc')
  /\ (forall record, In record (data svc') -> In (state record) (states svc'))
  /\ (forall region, In region (states svc') ->
                     exists record, In record (data svc') /\ state record = region)
  /\ (forall calls, forallb (fun c => negb (isLoad c)) calls = true ->
                    getAvailableStates (fold_left after calls svc') = states svc').
Proof.
  intros svc'.
  destruct (loadData_cases src svc) as [[e H]|(records & _ & Hall & H)];
    [rewrite H in Hok; discriminate|].
  assert (Hidx : states svc' = distinctFirstSeen (map state (data svc'))).
  { subst svc'. rewrite H. simpl. rewrite map_state_toPriceRecord. reflexivity. }
  assert (Htruthy : allTruthy (map state (data svc'))).
  { subst svc'. rewrite H. simpl. rewrite map_state_toPriceRecord.
    apply accepted_allTruthy. exact Hall. }
  split; [exact Hidx|]. rewrite Hidx. split; [apply distinctFirstSeen_NoDup|].
  split; [|split].
  - intros record Hin. apply distinctFirstSeen_complete; [exact Htruthy|].
    apply in_map. exact Hin.
  - intros region Hin. apply distinctFirstSeen_incl in Hin.
    apply in_map_iff in Hin. destruct Hin as (record & Heq & Hin). eauto.
  - intros calls Hcalls. rewrite <- Hidx. unfold getAvailableStates. f_equal.
    clear Hidx Htruthy. generalize svc'. clear - Hcalls.
    induction calls as [|c calls IH]; intros s; simpl in *; [reflexivity|].
    apply andb_true_iff in Hcalls. destruct Hcalls as [Hc Hcalls].
    rewrite IH by assumption. destruct c; simpl in *; (reflexivity || discriminate).
Qed.

End DataServiceTheorems.

(** ** parseFloat never invents a NaN *)

Section ParseFloatFacts.

Lemma iter_pos_invariant {A : Type} (P : A -> Prop) (f : A -> A) :
  (forall x, P x -> P (f x)) -> forall p x, P x -> P (SpecFloat.iter_pos f p x).
Proof.
  intros Hf. induction p as [p IH|p IH|]; intros x Hx; simpl; auto.
Qed.

Lemma shr_1_nonneg (mrs : shr_record) : 0 <= shr_m mrs -> 0 <= shr_m (shr_1 mrs).
Proof.
  destruct mrs as [m r s]. simpl.
  destruct m as [|[p|p|]|p]; simpl; lia.
Qed.

Lemma shr_nonneg (mrs : shr_record) (e n : Z) :
  0 <= shr_m mrs -> 0 <= shr_m (fst (shr mrs e n)).
Proof.
  intros H. destruct n as [|p|p]; simpl; try exact H.
  apply (iter_pos_invariant (fun x => 0 <= shr_m x)); [apply shr_1_nonneg|exact H].
Qed.

Lemma shr_fexp_nonneg (p e_max m e : Z) (l : location) :
  0 <= m -> 0 <= shr_m (fst (shr_fexp p e_max m e l)).
Proof.
  intros H. unfold shr_fexp. apply shr_nonneg.
  destruct l as [|[| |]]; simpl; exact H.
Qed.

Lemma round_nearest_even_nonneg (m : Z) (l : location) :
  0 <= m -> 0 <= round_nearest_even m l.
Proof.
  intros H. destruct l as [|[| |]]; simpl; try lia.
  destruct (Z.even m); lia.
Qed.

Lemma binary_round_aux_not_nan (p e_max : Z) (sx : bool) (mx ex : Z) (lx : location) :
  0 <= mx -> Js.isNaN (binary_round_aux p e_max sx mx ex lx) = false.
Proof.
  intros H. unfold binary_round_aux.
  pose proof (shr_fexp_nonneg p e_max mx ex lx H) as H1.
  destruct (shr_fexp p e_max mx ex lx) as [mrs' e']. simpl in H1.
  pose proof (round_nearest_even_nonneg (shr_m mrs') (loc_of_shr_record mrs') H1) as H2.
  pose proof (shr_fexp_nonneg p e_max _ e' loc_Exact H2) as H3.
  destruct (shr_fexp p e_max (round_nearest_even (shr_m mrs') (loc_of_shr_record mrs')) e' loc_Exact)
    as [mrs'' e'']. simpl in H3.
  destruct (shr_m mrs'') as [|q|q]; [reflexivity| |lia].
  destruct (e'' <=? e_max - p); reflexivity.
Qed.

Lemma binary_normalize_not_nan (m e : Z) (s : bool) :
  Js.isNaN (binary_normalize Js.prec Js.emax m e s) = false.
Proof.
  destruct m as [|q|q]; simpl; [reflexivity| |];
    unfold binary_round;
    destruct (shl_align q e (fexp Js.prec Js.emax (Z.pos (digits2_pos q) + e))) as [mz ez];
    apply binary_round_aux_not_nan; lia.
Qed.

Lemma div_finite_not_nan (sx sy : bool) (mx my : positive) (ex ey : Z) :
  Js.isNaN (Js.div (S754_finite sx mx ex) (S754_finite sy my ey)) = false.
Proof.
  unfold Js.div, SFdiv, SFdiv_core_binary.
  set (d := Z.min _ _). set (s := ex - ey - d).
  set (m' := match s with Z.pos _ => Z.shiftl (Z.pos mx) s | 0 => Z.pos mx | Z.neg _ => 0 end).
  assert (Hm' : 0 <= m').
  { subst m'. destruct s; try lia. apply Z.shiftl_nonneg. lia. }
  pose proof (Z.div_pos m' (Z.pos my) Hm' ltac:(lia)) as Hq.
  unfold Z.div in Hq.
  destruct (Z.div_eucl m' (Z.pos my)) as [q r]. simpl in Hq.
  apply binary_round_aux_not_nan. exact Hq.
Qed.

Lemma literal_value_not_nan (neg : bool) (l : Js.literal) :
  Js.isNaN (Js.literal_value neg l) = false.
Proof.
  destruct l as [|m e]; simpl; [reflexivity|].
  destruct m as [|q|q]; try reflexivity.
  destruct (0 <=? e).
  - apply binary_normalize_not_nan.
  - apply div_finite_not_nan.
Qed.

(** [parseFloat] of a text is NaN exactly when the text, leading white
    space apart, does not start with a decimal literal. *)
Lemma parseFloat_string_NaN (s : string) :
  Js.isNaN (Js.parseFloat (Js.Str s)) = true
  <-> Js.scan_literal (Js.trimStart s) = None.
Proof.
  simpl. unfold Js.parseFloat_string.
  destruct (Js.scan_literal (Js.trimStart s)) as [[neg l]|].
  - rewrite literal_value_not_nan. split; discriminate.
  - split; reflexivity.
Qed.

Lemma prefix_append (a s : string) : String.prefix a (a ++ s) = true.
Proof.
  induction a as [|c a IH].
  - destruct s; reflexivity.
  - change (String c a ++ s) with (String c (a ++ s)). simpl.
    destruct (ascii_dec c c) as [_|Hne]; [exact IH|congruence].
Qed.

(** A text that starts with [Infinity] reads as the positive infinity. *)
Lemma parseFloat_Infinity (s : string) :
  Js.parseFloat (Js.Str ("Infinity" ++ s)) = S754_infinity false.
Proof.
  unfold Js.parseFloat, Js.parseFloat_string.
  change ("Infinity" ++ s) with (String "I" ("nfinity" ++ s)).
  change (Js.trimStart (String "I" ("nfinity" ++ s))) with (String "I" ("nfinity" ++ s)).
  change (Js.scan_literal (String "I" ("nfinity" ++ s)))
    with (option_map (pair false) (Js.scan_unsigned ("Infinity" ++ s))).
  unfold Js.scan_unsigned. rewrite prefix_append. reflexivity.
Qed.

Lemma parseFloat_number_NaN (x : Js.number) :
  Js.isNaN (Js.parseFloat (Js.Num x)) = Js.isNaN x.
Proof. destruct x; reflexivity. Qed.

End ParseFloatFacts.

(** ** The row check *)

Section RowCheck.

Import DataService Spec.

Lemma invalid_iff (record : RawRecord) :
  invalid record = true
  <-> Js.isNaN (Js.parseFloat (raw_price record)) = true
      \/ Js.truthy (raw_state record) = false
      \/ Js.truthy (raw_timestamp record) = false.
Proof.
  unfold invalid. rewrite !orb_true_iff, !negb_true_iff. tauto.
Qed.

Lemma truthy_textual (v : Js.value) :
  textual v -> (Js.truthy v = false <-> absentOrEmpty v).
Proof.
  unfold absentOrEmpty. destruct v as [|s|x]; simpl; intros Ht.
  - split; auto.
  - rewrite negb_false_iff, String.eqb_eq. split.
    + intros ->. auto.
    + intros [H|H]; congruence.
  - destruct Ht.
Qed.

(** C3, as the code has it. A load of parsed rows fails exactly when, for
    some row, [parseFloat] of the price is NaN, or the region or the
    timestamp is falsy; for rows whose region and timestamp are absent or
    texts, that is: absent or empty. [parseFloat] of an absent price is
    NaN, that of a number is the number, and that of a text is NaN
    exactly when the text, leading white space apart, does not start
    with a decimal literal. [Infinity] is such a literal, and only the
    start of the text is read: a price of [Infinity] passes the check
    although it is not finite, [12abc] reads as 12 and [abc] fails. *)
Theorem loadData_fails_iff (records : list RawRecord) (svc : t) :
  ((exists e, fst (loadData (Parsed records) svc) = inl e)
   <-> Exists (fun record =>
                 Js.isNaN (Js.parseFloat (raw_price record)) = true
                 \/ Js.truthy (raw_state record) = false
                 \/ Js.truthy (raw_timestamp record) = false) records)
  /\ (Forall (fun record => textual (raw_state record)
                            /\ textual (raw_timestamp record)) records ->
      ((exists e, fst (loadData (Parsed records) svc) = inl e)
       <-> Exists (fun record =>
                     Js.isNaN (Js.parseFloat (raw_price record)) = true
                     \/ absentOrEmpty (raw_state record)
                     \/ absentOrEmpty (raw_timestamp record)) records))
  /\ (forall s, Js.isNaN (Js.parseFloat (Js.Str s)) = true
                <-> Js.scan_literal (Js.trimStart s) = None)
  /\ (forall x, Js.isNaN (Js.parseFloat (Js.Num x)) = Js.isNaN x)
  /\ Js.isNaN (Js.parseFloat Js.Undefined) = true
  /\ (forall s, Js.isFinite (Js.parseFloat (Js.Str ("Infinity" ++ s))) = false
                /\ Js.isNaN (Js.parseFloat (Js.Str ("Infinity" ++ s))) = false)
  /\ Js.parseFloat (Js.Str "12abc") = Js.of_integer 12
  /\ Js.isNaN (Js.parseFloat (Js.Str "abc")) = true.
Proof.
  assert (Hfails : (exists e, fst (loadData (Parsed records) svc) = inl e)
                   <-> Exists (fun record =>
                                 Js.isNaN (Js.parseFloat (raw_price record)) = true
                                 \/ Js.truthy (raw_state record) = false
                                 \/ Js.truthy (raw_timestamp record) = false) records).
  { split.
    + intros [e He]. simpl in He.
      pose proof (mapRecords_spec records []) as Hspec.
      destruct (mapRecords records []) as [ex|[out seen]]; [|discriminate].
      destruct Hspec as (record & _ & Hin & Hinv).
      apply List.Exists_exists. exists record. split; [exact Hin|].
      apply invalid_iff. exact Hinv.
    + intros Hex.
      assert (Hex' : Exists (fun record => invalid record = true) records).
      { apply List.Exists_exists in Hex. destruct Hex as (record & Hin & Hrec).
        apply List.Exists_exists. exists record. split; [exact Hin|].
        apply invalid_iff. exact Hrec. }
      destruct (mapRecords_rejects records [] Hex') as (record & _ & _ & Hmap).
      simpl. rewrite Hmap. eauto. }
  split; [exact Hfails|]. split.
  { intros Htext. rewrite Hfails, !List.Exists_exists.
    rewrite List.Forall_forall in Htext.
    split; intros (record & Hin & Hrec); exists record; (split; [exact Hin|]);
      destruct (Htext record Hin) as [Hstate Htime];
      pose proof (truthy_textual _ Hstate); pose proof (truthy_textual _ Htime); tauto. }
  split; [exact parseFloat_string_NaN|]. split; [exact parseFloat_number_NaN|].
  split; [reflexivity|]. split.
  { intros s. rewrite parseFloat_Infinity. split; reflexivity. }
  split; vm_compute; reflexivity.
Qed.

End RowCheck.

(** ** Facts about strings *)

Section StringFacts.

Import Spec.

Lemma split_not_nil (sep : ascii) (s : string) : Js.split sep s <> [].
Proof.
  destruct s as [|c r]; simpl; [discriminate|].
  destruct (Ascii.eqb c sep); [discriminate|].
  destruct (Js.split sep r); discriminate.
Qed.

Lemma split_no_sep (sep : ascii) (a : string) :
  hasChar sep a = false -> Js.split sep a = [a].
Proof.
  induction a as [|c a IH]; simpl; [reflexivity|].
  intros H. apply orb_false_iff in H. destruct H as [Hc Ha].
  rewrite Hc, IH by assumption. reflexivity.
Qed.

Lemma split_append (sep : ascii) (a b : string) :
  hasChar sep a = false ->
  Js.split sep (a ++ String sep b) = a :: Js.split sep b.
Proof.
  induction a as [|c a IH]; intros H.
  - change ("" ++ String sep b) with (String sep b). simpl.
    rewrite Ascii.eqb_refl. reflexivity.
  - rewrite append_cons. simpl in *.
    apply orb_false_iff in H. destruct H as [Hc Ha].
    rewrite Hc, IH by assumption. reflexivity.
Qed.

Lemma split_parts (sep : ascii) (s : string) :
  Forall (fun part => hasChar sep part = false) (Js.split sep s).
Proof.
  induction s as [|c r IH]; simpl.
  - constructor; [reflexivity|constructor].
  - destruct (Ascii.eqb c sep) eqn:Hc.
    + constructor; [reflexivity|exact IH].
    + destruct (Js.split sep r) as [|part parts].
      * constructor; [simpl; rewrite Hc; reflexivity|constructor].
      * inversion IH as [|? ? Hpart Hparts]; subst.
        constructor; [simpl; rewrite Hc, Hpart; reflexivity|exact Hparts].
Qed.

Lemma split_one (sep : ascii) (s b : string) :
  Js.split sep s = [b] -> s = b.
Proof.
  revert b. induction s as [|c r IH]; intros b; simpl.
  - congruence.
  - destruct (Ascii.eqb c sep).
    + intros H. injection H as _ H. destruct (split_not_nil _ _ H).
    + destruct (Js.split sep r) as [|part parts] eqn:Hr.
      * destruct (split_not_nil _ _ Hr).
      * intros H. injection H as <- ->. f_equal. apply IH. reflexivity.
Qed.

Lemma split_two (sep : ascii) (s a b : string) :
  Js.split sep s = [a; b] -> s = a ++ String sep b.
Proof.
  revert a. induction s as [|c r IH]; intros a; simpl.
  - discriminate.
  - destruct (Ascii.eqb c sep) eqn:Hc.
    + intros H. injection H as <- H. apply split_one in H. subst r.
      apply Ascii.eqb_eq in Hc. subst c. reflexivity.
    + destruct (Js.split sep r) as [|part parts] eqn:Hr.
      * discriminate.
      * intros H. injection H as <- ->. rewrite append_cons. f_equal.
        apply IH. reflexivity.
Qed.

Lemma eqb_empty_false (s : string) : s <> "" -> String.eqb s "" = false.
Proof. intros H. apply String.eqb_neq. exact H. Qed.

End StringFacts.

(** ** The credential store *)

Section AuthServiceFacts.

Import AuthService Spec.

Lemma addPair_validPair (users : gmap string string) (pair : string) :
  addPair users pair
  = if validPair pair
    then <[fst (pairFields pair) := snd (pairFields pair)]> users
    else users.
Proof.
  unfold addPair, validPair, pairFields.
  destruct (Js.split ":" (Js.trim pair)) as [|username [|password parts]]; reflexivity.
Qed.

Lemma validPair_fields (pair : string) :
  validPair pair = true ->
  fst (pairFields pair) <> "" /\ snd (pairFields pair) <> ""
  /\ hasChar ":" (snd (pairFields pair)) = false.
Proof.
  unfold validPair, pairFields. pose proof (split_parts ":" (Js.trim pair)) as Hparts.
  destruct (Js.split ":" (Js.trim pair)) as [|username [|password parts]]; try discriminate.
  simpl. intros H. apply andb_true_iff in H. destruct H as [Hu Hp].
  apply negb_true_iff, String.eqb_neq in Hu, Hp.
  inversion Hparts as [|? ? _ Hrest]; subst. inversion Hrest; subst. auto.
Qed.

Lemma fold_addPair_empty (pairs : list string) (users : gmap string string) :
  fold_left addPair pairs users = ∅
  <-> users = ∅ /\ Forall (fun pair => validPair pair = false) pairs.
Proof.
  revert users. induction pairs as [|pair pairs IH]; intros users; simpl.
  - split; [intros ->; split; [reflexivity|constructor]|tauto].
  - rewrite IH, addPair_validPair. destruct (validPair pair) eqn:Hv; split.
    + intros [H _]. destruct (insert_non_empty _ _ _ H).
    + intros [_ H]. inversion H; congruence.
    + intros [-> H]. split; [reflexivity|constructor; assumption].
    + intros [-> H]. inversion H; auto.
Qed.

Lemma fold_addPair_invariant (P : gmap string string -> Prop) :
  (forall users pair, P users -> validPair pair = true ->
                      P (<[fst (pairFields pair) := snd (pairFields pair)]> users)) ->
  forall pairs users, P users -> P (fold_left addPair pairs users).
Proof.
  intros Hstep. induction pairs as [|pair pairs IH]; intros users Hu; simpl; [exact Hu|].
  apply IH. rewrite addPair_validPair.
  destruct (validPair pair) eqn:Hv; [apply Hstep; assumption|exact Hu].
Qed.

Lemma nonempty_Some (o : option string) :
  Js.nonempty o = true -> exists s, o = Some s /\ s <> "".
Proof.
  destruct o as [s|]; simpl; [|discriminate].
  intros H. apply negb_true_iff, String.eqb_neq in H. eauto.
Qed.

Lemma constructor_inr (env : Env) (svc : t) :
  constructor env = inr svc ->
  JWT_SECRET env = Some (jwtSecret svc) /\ jwtSecret svc <> ""
  /\ users svc = loadUsersFromEnv env ∅ /\ users svc <> ∅.
Proof.
  unfold constructor.
  destruct (Js.nonempty (JWT_SECRET env)) eqn:Hs; simpl; [|discriminate].
  destruct (Nat.eqb (size (loadUsersFromEnv env ∅)) 0) eqn:Hsz; [discriminate|].
  intros H. injection H as <-. simpl.
  apply nonempty_Some in Hs. destruct Hs as (secret & -> & Hne). simpl.
  repeat split; try assumption.
  intros Hempty. rewrite Hempty in Hsz. discriminate.
Qed.

Lemma loadUsersFromEnv_nonempty (env : Env) :
  credentialsNonempty (loadUsersFromEnv env ∅).
Proof.
  unfold loadUsersFromEnv.
  destruct (Js.nonempty (API_USERS env)).
  - apply fold_addPair_invariant.
    + intros users pair Hu Hv u p. destruct (validPair_fields pair Hv) as (Hf & Hs & _).
      rewrite lookup_insert. case_decide as Heq.
      * simpl. intros [= <-]. subst u. auto.
      * apply Hu.
    + intros u p. rewrite lookup_empty. discriminate.
  - destruct (Js.nonempty (API_USERNAME env)) eqn:Hu; simpl;
      [|intros u p; rewrite lookup_empty; discriminate].
    destruct (Js.nonempty (API_PASSWORD env)) eqn:Hp; simpl;
      [|intros u p; rewrite lookup_empty; discriminate].
    apply nonempty_Some in Hu, Hp.
    destruct Hu as (lu & -> & Hlu), Hp as (lp & -> & Hlp). simpl.
    intros u p. rewrite lookup_insert. case_decide as Heq.
    + simpl. intros [= <-]. subst u. auto.
    + rewrite lookup_empty. discriminate.
Qed.

End AuthServiceFacts.

Section AuthServiceTheorems.

Import AuthService Spec.

(** C4, as the code has it. Construction fails first when no signing
    secret is set. Otherwise the multi-user variable decides alone as
    soon as it is set and not empty: the credentials are its valid pairs,
    and construction fails with "no users" when it has none, whatever the
    legacy variables hold. The legacy pair is read only when the
    multi-user variable is absent or empty, and construction then fails
    with "no users" exactly when the legacy user name or password is
    absent or empty. *)
Theorem constructor_outcome (env : Env) :
  (constructor env = inl JwtSecretRequired <-> Js.nonempty (JWT_SECRET env) = false)
  /\ (constructor env = inl NoUsersFound
      <-> Js.nonempty (JWT_SECRET env) = true
          /\ if Js.nonempty (API_USERS env)
             then Forall (fun pair => validPair pair = false)
                         (Js.split "," (default "" (API_USERS env)))
             else Js.nonempty (API_USERNAME env) && Js.nonempty (API_PASSWORD env) = false)
  /\ (forall svc, constructor env = inr svc ->
                  users svc
                  = if Js.nonempty (API_USERS env)
                    then fold_left addPair (Js.split "," (default "" (API_USERS env))) ∅
                    else {[ default "" (API_USERNAME env) := default "" (API_PASSWORD env) ]}).
Proof.
  assert (Hempty : loadUsersFromEnv env ∅ = ∅
                   <-> if Js.nonempty (API_USERS env)
                       then Forall (fun pair => validPair pair = false)
                                   (Js.split "," (default "" (API_USERS env)))
                       else Js.nonempty (API_USERNAME env) && Js.nonempty (API_PASSWORD env)
                            = false).
  { unfold loadUsersFromEnv. destruct (Js.nonempty (API_USERS env)).
    - rewrite fold_addPair_empty. tauto.
    - destruct (Js.nonempty (API_USERNAME env) && Js.nonempty (API_PASSWORD env)).
      + split; [intros H; destruct (insert_non_empty _ _ _ H)|discriminate].
      + tauto. }
  unfold constructor.
  destruct (Js.nonempty (JWT_SECRET env)) eqn:Hs; simpl.
  - destruct (Nat.eqb (size (loadUsersFromEnv env ∅)) 0) eqn:Hsz.
    + apply Nat.eqb_eq, map_size_empty_iff in Hsz.
      split; [split; discriminate|]. split; [|discriminate].
      split; [intros _; split; [reflexivity|apply Hempty; exact Hsz]|reflexivity].
    + split; [split; discriminate|]. split.
      * split; [discriminate|]. intros [_ H]. apply Hempty in H.
        rewrite H in Hsz. discriminate.
      * intros svc [= <-]. simpl. unfold loadUsersFromEnv.
        destruct (Js.nonempty (API_USERS env)); [reflexivity|].
        destruct (Js.nonempty (API_USERNAME env) && Js.nonempty (API_PASSWORD env)) eqn:Hl;
          [reflexivity|].
        exfalso. assert (H : loadUsersFromEnv env ∅ = ∅) by (apply Hempty; reflexivity).
        rewrite H in Hsz. discriminate.
  - split; [split; reflexivity|]. split; [|discriminate].
    split; [discriminate|]. intros [H _]. discriminate.
Qed.

(** C7. On a constructed service [validateCredentials] is a total
    function: true on every pair of the credential set, false when an
    argument is empty or missing, when the user name is not in the set,
    and when the password is not the stored one. *)
Theorem validateCredentials_spec (env : Env) (svc : t)
    (Hnew : constructor env = inr svc) :
  (forall u p, users svc !! u = Some p ->
               validateCredentials svc (Some u) (Some p) = true)
  /\ (forall u p, Js.nonempty u = false \/ Js.nonempty p = false ->
                  validateCredentials svc u p = false)
  /\ (forall u p, users svc !! u = None ->
                  validateCredentials svc (Some u) p = false)
  /\ (forall u p stored, users svc !! u = Some stored -> p <> Some stored ->
                         validateCredentials svc (Some u) p = false)
  /\ (forall u p, validateCredentials svc (Some u) (Some p) = true
                  <-> users svc !! u = Some p).
Proof.
  destruct (constructor_inr env svc Hnew) as (_ & _ & Husers & _).
  pose proof (loadUsersFromEnv_nonempty env) as Hne. rewrite <- Husers in Hne.
  assert (Hiff : forall u p, validateCredentials svc (Some u) (Some p) = true
                             <-> users svc !! u = Some p).
  { intros u p. unfold validateCredentials. simpl. split.
    - destruct (negb (String.eqb u "") ) eqn:Hu, (negb (String.eqb p "")) eqn:Hp;
        simpl; try discriminate.
      destruct (users svc !! u) as [stored|]; [|discriminate].
      intros H. apply String.eqb_eq in H. congruence.
    - intros Hin. destruct (Hne u p Hin) as [Hu Hp].
      rewrite (eqb_empty_false u Hu), (eqb_empty_false p Hp), Hin. simpl.
      apply String.eqb_refl. }
  split; [intros u p; apply Hiff|]. split; [|split; [|split; [|exact Hiff]]].
  - intros u p [H|H]; unfold validateCredentials; rewrite H; simpl;
      [reflexivity|rewrite orb_true_r; reflexivity].
  - intros u p Hnone. unfold validateCredentials.
    destruct (negb (Js.nonempty (Some u)) || negb (Js.nonempty p)); [reflexivity|].
    destruct p; [rewrite Hnone|]; reflexivity.
  - intros u p stored Hin Hp. unfold validateCredentials.
    destruct (negb (Js.nonempty (Some u)) || negb (Js.nonempty p)); [reflexivity|].
    destruct p as [p|]; [|reflexivity]. rewrite Hin.
    apply String.eqb_neq. congruence.
Qed.

(** C10. In the multi-user form an entry is split on every colon and only
    the first two fields are kept: the entry [u:p1:rest] stores [p1] for
    [u], and no password stored from that form holds a colon. *)
Theorem multi_user_password_stops_at_colon :
  (forall secret u p1 rest legacyUsername legacyPassword,
      secret <> "" -> u <> "" -> p1 <> "" ->
      startsWithWhitespace u = false ->
      hasChar ":" u = false -> hasChar ":" p1 = false ->
      hasChar "," (u ++ ":" ++ p1 ++ ":" ++ rest) = false ->
      exists svc,
        constructor {| JWT_SECRET := Some secret;
                       API_USERS := Some (u ++ ":" ++ p1 ++ ":" ++ rest);
                       API_USERNAME := legacyUsername;
                       API_PASSWORD := legacyPassword |} = inr svc
        /\ users svc = {[ u := p1 ]})
  /\ (forall env svc,
        Js.nonempty (API_USERS env) = true -> constructor env = inr svc ->
        forall u p, users svc !! u = Some p -> hasChar ":" p = false).
Proof.
  split.
  - intros secret u p1 rest lu lp Hsecret Hu Hp1 Hws Hcu Hcp Hcomma.
    set (entry := u ++ ":" ++ p1 ++ ":" ++ rest) in *.
    assert (Hentry : entry <> "").
    { subst entry. destruct u; [congruence|discriminate]. }
    assert (Hfields : Js.split ":" (Js.trim entry)
                      = u :: p1 :: Js.split ":" (Js.trimEnd rest)).
    { unfold Js.trim. subst entry.
      change (u ++ ":" ++ p1 ++ ":" ++ rest) with (u ++ String ":" (p1 ++ String ":" rest)).
      rewrite trimStart_id; [|exact Hu|exact Hws|unfold headLead, continuation; simpl; lia].
      rewrite !(trimEnd_append ":") by (reflexivity || (simpl; lia)).
      rewrite split_append by assumption. rewrite split_append by assumption.
      reflexivity. }
    assert (Hload : fold_left addPair (Js.split "," entry) ∅ = {[ u := p1 ]}).
    { rewrite split_no_sep by assumption. simpl. unfold addPair. rewrite Hfields.
      rewrite (eqb_empty_false u Hu), (eqb_empty_false p1 Hp1). reflexivity. }
    eexists. split.
    + unfold constructor. simpl. rewrite (eqb_empty_false secret Hsecret). simpl.
      unfold loadUsersFromEnv. simpl. rewrite (eqb_empty_false entry Hentry). simpl.
      rewrite Hload. rewrite map_size_singleton. simpl. reflexivity.
    + simpl. reflexivity.
  - intros env svc Hmulti Hnew.
    destruct (constructor_inr env svc Hnew) as (_ & _ & -> & _).
    unfold loadUsersFromEnv. rewrite Hmulti.
    apply (fold_addPair_invariant
             (fun users => forall u p, users !! u = Some p -> hasChar ":" p = false)).
    + intros users pair Husers Hv u p. destruct (validPair_fields pair Hv) as (_ & _ & Hc).
      rewrite lookup_insert. case_decide as Heq.
      * simpl. intros [= <-]. exact Hc.
      * apply Husers.
    + intros u p. rewrite lookup_empty. discriminate.
Qed.

End AuthServiceTheorems.

(** ** Tokens *)

Section TokenFacts.

Import AuthService Spec.

Lemma number_le_integer (e clock : Z) :
  Jwt.number_le (Jwt.Finite (inject_Z e)) clock = (e <=? clock).
Proof. unfold Jwt.number_le, Qle_bool. simpl. rewrite !Z.mul_1_r. reflexivity. Qed.

Lemma expired_iff (exp now : Z) : (exp <=? now / 1000) = true <-> 1000 * exp <= now.
Proof.
  rewrite Z.leb_le.
  pose proof (Z.div_mod now 1000 ltac:(lia)).
  pose proof (Z.mod_pos_bound now 1000 ltac:(lia)). lia.
Qed.

Lemma get_nbf_object_of (p : Jwt.JWTPayload) : Jwt.get (Jwt.object_of p) "nbf" = None.
Proof. reflexivity. Qed.

Lemma get_exp_object_of (p : Jwt.JWTPayload) :
  Jwt.get (Jwt.object_of p) "exp" = Some (Jwt.Number (Jwt.Finite (inject_Z (Jwt.exp p)))).
Proof. reflexivity. Qed.

Lemma get_username_object_of (p : Jwt.JWTPayload) :
  Jwt.get (Jwt.object_of p) "username" = Some (Jwt.Text (Jwt.username p)).
Proof. reflexivity. Qed.

Lemma notBefore_None (payload : Jwt.json) (clock : Z) :
  Jwt.notBefore payload clock = None <-> started payload clock.
Proof.
  unfold Jwt.notBefore, started.
  destruct (Jwt.get payload "nbf") as [[s|nbf|text]|].
  - split; [discriminate|]. intros [H|(x & H & _)]; discriminate.
  - destruct (Jwt.number_le nbf clock) eqn:Hle.
    + split; [|reflexivity]. intros _. right. exists nbf. auto.
    + split; [discriminate|]. intros [H|(x & H & Hx)]; [discriminate|]. congruence.
  - split; [discriminate|]. intros [H|(x & H & _)]; discriminate.
  - split; auto.
Qed.

Lemma expired_None (payload : Jwt.json) (clock : Z) :
  Jwt.expired payload clock = None <-> unexpired payload clock.
Proof.
  unfold Jwt.expired, unexpired.
  destruct (Jwt.get payload "exp") as [[s|exp|text]|].
  - split; [discriminate|]. intros [H|(x & H & _)]; discriminate.
  - destruct (Jwt.number_le exp clock) eqn:Hle.
    + split; [discriminate|]. intros [H|(x & H & Hx)]; [discriminate|]. congruence.
    + split; [|reflexivity]. intros _. right. exists exp. auto.
  - split; [discriminate|]. intros [H|(x & H & _)]; discriminate.
  - split; auto.
Qed.

Lemma checkClaims_not_null (payload : Jwt.json) (clock : Z) :
  payload <> Jwt.JsonNull ->
  Jwt.checkClaims payload clock
  = match Jwt.notBefore payload clock with
    | Some e => inl e
    | None =>
        match Jwt.expired payload clock with
        | Some e => inl e
        | None => inr payload
        end
    end.
Proof. destruct payload; [congruence|reflexivity..]. Qed.

(** The payloads [verify] lets through. *)
Lemma checkClaims_inr (payload decoded : Jwt.json) (clock : Z) :
  Jwt.checkClaims payload clock = inr decoded
  <-> decoded = payload /\ payload <> Jwt.JsonNull
      /\ started payload clock /\ unexpired payload clock.
Proof.
  destruct (decide (payload = Jwt.JsonNull)) as [->|Hnull].
  - split; [discriminate|]. intros (_ & H & _). congruence.
  - rewrite (checkClaims_not_null payload clock Hnull).
    rewrite <- notBefore_None, <- expired_None.
    destruct (Jwt.notBefore payload clock) as [e|].
    + split; [discriminate|]. intros (_ & _ & H & _). discriminate.
    + destruct (Jwt.expired payload clock) as [e|].
      * split; [discriminate|]. intros (_ & _ & _ & H). discriminate.
      * split; [intros [= <-]; auto|]. intros (-> & _). reflexivity.
Qed.

Lemma checkClaims_object_of (p : Jwt.JWTPayload) (clock : Z) :
  Jwt.checkClaims (Jwt.object_of p) clock
  = if Jwt.exp p <=? clock then inl Jwt.TokenExpiredError else inr (Jwt.object_of p).
Proof.
  rewrite checkClaims_not_null by discriminate.
  unfold Jwt.notBefore, Jwt.expired.
  rewrite get_nbf_object_of, get_exp_object_of, number_le_integer.
  destruct (Jwt.exp p <=? clock); reflexivity.
Qed.

Lemma signature_valid_own (key : string) (payload : Jwt.json) :
  Jwt.signature_valid {| Jwt.claims := payload; Jwt.tag := Jwt.HMAC key payload |} key = true.
Proof.
  unfold Jwt.signature_valid. simpl.
  rewrite String.eqb_refl, bool_decide_eq_true_2 by reflexivity. reflexivity.
Qed.

Lemma validateToken_unfold `{Jwt.Codec} (svc : t) (token : string) (now : Z) :
  jwtSecret svc <> "" ->
  validateToken svc token now
  = if String.eqb token "" then None
    else match Jwt.parse token with
         | None => None
         | Some j =>
             if negb (Jwt.signature_valid j (jwtSecret svc)) then None
             else match Jwt.checkClaims (Jwt.claims j) (now / 1000) with
                  | inr decoded => Some decoded
                  | inl _ => None
                  end
         end.
Proof.
  intros Hs. unfold validateToken, Jwt.verify.
  destruct (String.eqb token ""); [reflexivity|].
  destruct (Jwt.parse token) as [j|]; [|reflexivity].
  rewrite (eqb_empty_false _ Hs).
  destruct (negb (Jwt.signature_valid j (jwtSecret svc))); reflexivity.
Qed.

Lemma bits_not_empty (p : positive) : Examples.bits p <> "".
Proof. destruct p; discriminate. Qed.

Lemma unbits_bits (p : positive) : Examples.unbits (Examples.bits p) = Some p.
Proof.
  induction p as [q IH|q IH|]; [| |reflexivity];
    simpl; pose proof (bits_not_empty q);
    destruct (Examples.bits q) as [|c r] eqn:Hq; [congruence| |congruence|];
    rewrite IH; reflexivity.
Qed.

Lemma unflattenNumber_flattenNumber (x : Jwt.number) :
  Examples.unflattenNumber (Examples.flattenNumber x) = x.
Proof. destruct x as [[n d]|negative]; reflexivity. Qed.

Lemma unflattenMember_flattenMember (m : Jwt.member) :
  Examples.unflattenMember (Examples.flattenMember m) = m.
Proof.
  destruct m as [s|x|text]; simpl; [reflexivity| |reflexivity].
  rewrite unflattenNumber_flattenNumber. reflexivity.
Qed.

Lemma unflattenJson_flattenJson (v : Jwt.json) :
  Examples.unflattenJson (Examples.flattenJson v) = v.
Proof.
  destruct v as [|b|x|s|text|members]; simpl; try reflexivity.
  - rewrite unflattenNumber_flattenNumber. reflexivity.
  - rewrite list_to_map_to_list, <- map_fmap_compose. f_equal.
    rewrite <- (map_fmap_id members) at 2.
    apply map_fmap_ext. intros name m _. apply unflattenMember_flattenMember.
Qed.

Lemma unflatten_flatten (j : Jwt.jws) : Examples.unflatten (Examples.flatten j) = j.
Proof.
  destruct j as [c [key signed]]. unfold Examples.flatten, Examples.unflatten. simpl.
  rewrite !unflattenJson_flattenJson. reflexivity.
Qed.

Lemma bitCodec_laws : Jwt.CodecLaws Examples.bitCodec.
Proof.
  split; intros j; simpl.
  - rewrite unbits_bits, decode_encode. simpl. rewrite unflatten_flatten. reflexivity.
  - apply bits_not_empty.
Qed.

End TokenFacts.

Section TokenTheorems.

Import AuthService Spec.

Context {C : Jwt.Codec}.

(** C5. On a constructed service, a token issued for any user name and
    verified at the same clock time is accepted, and the payload returned
    is the object of a [JWTPayload] that carries that user name, as its
    member [username], and expires 86400 seconds after it was issued. *)
Theorem token_roundtrip (L : Jwt.CodecLaws C) (env : Env) (svc : t)
    (Hnew : constructor env = inr svc) (username : string) (now : Z) :
  exists token payload,
    generateToken svc username (steady now) = inr token
    /\ validateToken svc token now = Some (Jwt.object_of payload)
    /\ Jwt.username payload = username
    /\ Jwt.exp payload - Jwt.iat payload = 86400
    /\ Jwt.get (Jwt.object_of payload) "username" = Some (Jwt.Text username).
Proof.
  destruct (constructor_inr env svc Hnew) as (_ & Hs & _).
  set (payload := {| Jwt.username := username; Jwt.iat := now / 1000;
                     Jwt.exp := now / 1000 + 24 * 60 * 60 |}).
  set (j := {| Jwt.claims := Jwt.object_of payload;
               Jwt.tag := Jwt.HMAC (jwtSecret svc) (Jwt.object_of payload) |}).
  exists (Jwt.serialize j), payload.
  assert (Hsign : generateToken svc username (steady now) = inr (Jwt.serialize j)).
  { unfold generateToken, Jwt.sign. rewrite (eqb_empty_false _ Hs). simpl.
    destruct (now / 1000 =? 0) eqn:Hz; [|reflexivity].
    apply Z.eqb_eq in Hz. subst j payload. rewrite Hz. reflexivity. }
  split; [exact Hsign|]. split; [|split; [reflexivity|split; [simpl; lia|reflexivity]]].
  rewrite validateToken_unfold by exact Hs.
  rewrite (eqb_empty_false _ (Jwt.serialize_nonempty j)), Jwt.parse_serialize.
  subst j. rewrite signature_valid_own. simpl negb. cbv iota.
  cbn [Jwt.claims]. rewrite checkClaims_object_of. subst payload. cbn [Jwt.exp].
  destruct (now / 1000 + 24 * 60 * 60 <=? now / 1000) eqn:Hexp; [|reflexivity].
  apply Z.leb_le in Hexp. lia.
Qed.

(** [generateToken] reads the clock once for [iat] and once more for [exp]:
    the payload that comes back carries the second of each reading. *)
Remark generateToken_reads_clock_twice (L : Jwt.CodecLaws C) (env : Env) (svc : t)
    (Hnew : constructor env = inr svc) (username : string) (clock : Clock) (now : Z) :
  at_iat clock / 1000 <> 0 ->
  now / 1000 < at_exp clock / 1000 + 86400 ->
  exists token,
    generateToken svc username clock = inr token
    /\ validateToken svc token now
       = Some (Jwt.object_of {| Jwt.username := username;
                                Jwt.iat := at_iat clock / 1000;
                                Jwt.exp := at_exp clock / 1000 + 86400 |}).
Proof.
  intros Hiat Hnow.
  destruct (constructor_inr env svc Hnew) as (_ & Hs & _).
  unfold generateToken, Jwt.sign. rewrite (eqb_empty_false _ Hs). simpl.
  apply Z.eqb_neq in Hiat. rewrite Hiat.
  eexists. split; [reflexivity|].
  rewrite validateToken_unfold by exact Hs.
  rewrite (eqb_empty_false _ (Jwt.serialize_nonempty _)), Jwt.parse_serialize.
  rewrite signature_valid_own. simpl negb. cbv iota.
  cbn [Jwt.claims]. rewrite checkClaims_object_of. cbn [Jwt.exp].
  change (24 * 60 * 60) with 86400.
  destruct (at_exp clock / 1000 + 86400 <=? now / 1000) eqn:Hexp; [|reflexivity].
  apply Z.leb_le in Hexp. lia.
Qed.

(** C6, as the code has it. On a constructed service [validateToken] is
    a total function. It gives nothing for the empty text, for a text
    that does not decode, for a token signed with another secret or whose
    signature does not fit its payload, and for a token whose expiry is
    not after the clock's second, whatever its signature. It also gives
    nothing for a token that names a not-before time after the clock's
    second, for one whose [nbf] or [exp] is not a number, and for one
    whose payload is [null]. It gives the decoded payload in every other
    case, and in no other: a payload comes back exactly when the token is
    not empty, decodes, carries a signature made with the service's
    secret over its payload, and that payload is not [null], names no
    [nbf] or one not after the clock's second, and names no [exp] or one
    after it. An expiry of [e] whole seconds is not after the clock's
    second exactly when [1000 * e] is at most the clock's milliseconds. *)
Theorem validateToken_cases (env : Env) (svc : t)
    (Hnew : constructor env = inr svc) (token : string) (now : Z) :
  (token = "" -> validateToken svc token now = None)
  /\ (Jwt.parse token = None -> validateToken svc token now = None)
  /\ (forall j key signed,
        Jwt.parse token = Some j -> Jwt.tag j = Jwt.HMAC key signed ->
        key <> jwtSecret svc -> validateToken svc token now = None)
  /\ (forall j, Jwt.parse token = Some j ->
                Jwt.signature_valid j (jwtSecret svc) = false ->
                validateToken svc token now = None)
  /\ (forall j exp, Jwt.parse token = Some j ->
                    Jwt.get (Jwt.claims j) "exp" = Some (Jwt.Number exp) ->
                    Jwt.number_le exp (now / 1000) = true ->
                    validateToken svc token now = None)
  /\ (forall j nbf, Jwt.parse token = Some j ->
                    Jwt.get (Jwt.claims j) "nbf" = Some (Jwt.Number nbf) ->
                    Jwt.number_le nbf (now / 1000) = false ->
                    validateToken svc token now = None)
  /\ (forall j name m, Jwt.parse token = Some j ->
                       name = "nbf" \/ name = "exp" ->
                       Jwt.get (Jwt.claims j) name = Some m ->
                       (forall x, m <> Jwt.Number x) ->
                       validateToken svc token now = None)
  /\ (forall j, Jwt.parse token = Some j -> Jwt.claims j = Jwt.JsonNull ->
                validateToken svc token now = None)
  /\ (forall decoded,
        validateToken svc token now = Some decoded
        <-> token <> ""
            /\ exists j, Jwt.parse token = Some j
                         /\ Jwt.signature_valid j (jwtSecret svc) = true
                         /\ decoded = Jwt.claims j
                         /\ Jwt.claims j <> Jwt.JsonNull
                         /\ started (Jwt.claims j) (now / 1000)
                         /\ unexpired (Jwt.claims j) (now / 1000))
  /\ (forall e, Jwt.number_le (Jwt.Finite (inject_Z e)) (now / 1000) = true
                <-> 1000 * e <= now).
Proof.
  destruct (constructor_inr env svc Hnew) as (_ & Hs & _).
  assert (Hiff : forall decoded,
             validateToken svc token now = Some decoded
             <-> token <> ""
                 /\ exists j, Jwt.parse token = Some j
                              /\ Jwt.signature_valid j (jwtSecret svc) = true
                              /\ decoded = Jwt.claims j
                              /\ Jwt.claims j <> Jwt.JsonNull
                              /\ started (Jwt.claims j) (now / 1000)
                              /\ unexpired (Jwt.claims j) (now / 1000)).
  { intros decoded. rewrite validateToken_unfold by exact Hs.
    destruct (String.eqb_spec token "") as [->|Htoken].
    { split; [discriminate|]. intros [H _]. congruence. }
    destruct (Jwt.parse token) as [j|].
    2:{ split; [discriminate|]. intros (_ & j & H & _). discriminate. }
    destruct (Jwt.signature_valid j (jwtSecret svc)) eqn:Hsig; simpl.
    2:{ split; [discriminate|]. intros (_ & j' & [= <-] & H & _). congruence. }
    destruct (Jwt.checkClaims (Jwt.claims j) (now / 1000)) as [e|payload] eqn:Hcheck.
    - split; [discriminate|]. intros (_ & j' & [= <-] & _ & -> & Hrest).
      assert (Hinr : Jwt.checkClaims (Jwt.claims j) (now / 1000) = inr (Jwt.claims j))
        by (apply checkClaims_inr; tauto).
      congruence.
    - apply checkClaims_inr in Hcheck. destruct Hcheck as (-> & Hrest).
      split.
      + intros [= <-]. split; [exact Htoken|]. exists j. tauto.
      + intros (_ & j' & [= <-] & _ & -> & _). reflexivity. }
  assert (Hnone : forall j, Jwt.parse token = Some j ->
                            (forall decoded, ~ (decoded = Jwt.claims j
                                                /\ Jwt.signature_valid j (jwtSecret svc) = true
                                                /\ Jwt.claims j <> Jwt.JsonNull
                                                /\ started (Jwt.claims j) (now / 1000)
                                                /\ unexpired (Jwt.claims j) (now / 1000))) ->
                            validateToken svc token now = None).
  { intros j Hj Hno.
    destruct (validateToken svc token now) as [decoded|] eqn:Hv in |- *; [|reflexivity].
    apply Hiff in Hv. destruct Hv as (_ & j' & Hj' & Hsig & Hd & Hrest).
    assert (j' = j) by congruence. subst j'.
    destruct (Hno decoded). tauto. }
  split; [intros ->; reflexivity|].
  split.
  { intros Hparse. destruct (validateToken svc token now) as [decoded|] eqn:Hv in |- *; [|reflexivity].
    apply Hiff in Hv. destruct Hv as (_ & j & Hj & _). congruence. }
  assert (Hbad : forall j, Jwt.parse token = Some j ->
                           Jwt.signature_valid j (jwtSecret svc) = false ->
                           validateToken svc token now = None).
  { intros j Hj Hsig. apply (Hnone j Hj). intros decoded (_ & H & _). congruence. }
  split.
  { intros j key signed Hj Htag Hkey. apply (Hbad j Hj).
    unfold Jwt.signature_valid. rewrite Htag.
    apply String.eqb_neq in Hkey. rewrite Hkey. reflexivity. }
  split; [exact Hbad|].
  split.
  { intros j exp Hj Hget Hle. apply (Hnone j Hj).
    intros decoded (_ & _ & _ & _ & [H|(x & H & Hx)]); congruence. }
  split.
  { intros j nbf Hj Hget Hle. apply (Hnone j Hj).
    intros decoded (_ & _ & _ & [H|(x & H & Hx)] & _); congruence. }
  split.
  { intros j name m Hj Hname Hget Hm. apply (Hnone j Hj).
    intros decoded (_ & _ & _ & Hstarted & Hunexpired).
    destruct Hname as [-> | ->].
    - destruct Hstarted as [H|(x & H & _)]; [congruence|].
      rewrite Hget in H. injection H as ->. exact (Hm x eq_refl).
    - destruct Hunexpired as [H|(x & H & _)]; [congruence|].
      rewrite Hget in H. injection H as ->. exact (Hm x eq_refl). }
  split.
  { intros j Hj Hnull. apply (Hnone j Hj). intros decoded (_ & _ & H & _). congruence. }
  split; [exact Hiff|].
  intros e. rewrite number_le_integer. apply expired_iff.
Qed.

End TokenTheorems.

(** ** The gate in front of the protected routes *)

Section MiddlewareTheorems.

Import AuthMiddleware Spec.

Context {C : Jwt.Codec}.

Lemma bearer_split (header token : string) :
  bearer header token -> Js.split " " header = ["Bearer"; token].
Proof.
  intros (-> & _ & Hsp).
  change ("Bearer " ++ token) with ("Bearer" ++ String " " token).
  rewrite split_append by reflexivity. rewrite split_no_sep by exact Hsp. reflexivity.
Qed.

Lemma split_bearer (header token : string) :
  Js.split " " header = ["Bearer"; token] -> token <> "" -> bearer header token.
Proof.
  intros Hsplit Htoken. split; [|split; [exact Htoken|]].
  - apply split_two in Hsplit. exact Hsplit.
  - pose proof (split_parts " " header) as Hparts. rewrite Hsplit in Hparts.
    inversion Hparts as [|? ? _ Hrest]; subst. inversion Hrest; subst. assumption.
Qed.

(** C8. A request without an Authorization header, or with one that is
    not [Bearer], one space and a non-empty token without a space, is
    answered 401 "Access token required". A header of that form whose
    token does not verify (or for which no service can be built) is
    answered 401 "Invalid token", a different body. The request goes on,
    with the decoded payload as its user, exactly when the header has
    that form and its token verifies with a payload that [!user] does
    not take for a missing one (an object, as every token of the service
    carries, is never taken so). *)
Theorem authMiddleware_gate (authService : option AuthService.t)
    (env : AuthService.Env) (now : Z) (authorization : option string) :
  let outcome := fst (authMiddleware authService env now authorization) in
  (authorization = None -> outcome = Json 401 "Access token required")
  /\ (forall header,
        authorization = Some header -> (forall token, ~ bearer header token) ->
        outcome = Json 401 "Access token required")
  /\ (forall header token,
        authorization = Some header -> bearer header token ->
        outcome = match getAuthService authService env with
                  | inr svc =>
                      match AuthService.validateToken svc token now with
                      | Some user =>
                          if Jwt.truthy user then Next user
                          else Json 401 "Invalid token"
                      | None => Json 401 "Invalid token"
                      end
                  | inl _ => Json 401 "Invalid token"
                  end)
  /\ Json 401 "Access token required" <> Json 401 "Invalid token"
  /\ (forall user,
        outcome = Next user ->
        exists header token svc,
          authorization = Some header /\ bearer header token
          /\ getAuthService authService env = inr svc
          /\ AuthService.validateToken svc token now = Some user
          /\ Jwt.truthy user = true)
  /\ (forall members, Jwt.truthy (Jwt.JsonObject members) = true).
Proof.
  intros outcome. subst outcome.
  split; [intros ->; reflexivity|].
  split; [|split; [|split; [discriminate|split; [|reflexivity]]]].
  - intros header -> Hnot. simpl.
    destruct (String.eqb header ""); [reflexivity|].
    destruct (Js.split " " header) as [|scheme [|token [|extra parts]]] eqn:Hsplit;
      try reflexivity.
    destruct (negb (String.eqb scheme "Bearer") || String.eqb token "") eqn:Hcheck;
      [reflexivity|].
    apply orb_false_iff in Hcheck. destruct Hcheck as [Hscheme Htoken].
    apply negb_false_iff, String.eqb_eq in Hscheme. apply String.eqb_neq in Htoken.
    subst scheme. destruct (Hnot token). apply split_bearer; assumption.
  - intros header token -> Hbearer. simpl.
    pose proof (bearer_split header token Hbearer) as Hsplit.
    destruct Hbearer as (Hheader & Htoken & _).
    assert (Hne : String.eqb header "" = false).
    { apply String.eqb_neq. rewrite Hheader. discriminate. }
    rewrite Hne, Hsplit. apply String.eqb_neq in Htoken. rewrite Htoken. simpl.
    destruct (getAuthService authService env) as [e|svc]; [reflexivity|].
    destruct (AuthService.validateToken svc token now) as [user|]; [|reflexivity].
    destruct (Jwt.truthy user); reflexivity.
  - intros user. destruct authorization as [header|]; simpl; [|discriminate].
    destruct (String.eqb header ""); [discriminate|].
    destruct (Js.split " " header) as [|scheme [|token [|extra parts]]] eqn:Hsplit;
      try discriminate.
    destruct (negb (String.eqb scheme "Bearer") || String.eqb token "") eqn:Hcheck;
      [discriminate|].
    apply orb_false_iff in Hcheck. destruct Hcheck as [Hscheme Htoken].
    apply negb_false_iff, String.eqb_eq in Hscheme. apply String.eqb_neq in Htoken.
    subst scheme.
    destruct (getAuthService authService env) as [e|svc] eqn:Hsvc; [discriminate|].
    destruct (AuthService.validateToken svc token now) as [decoded|] eqn:Hvalid;
      [|discriminate].
    destruct (Jwt.truthy decoded) eqn:Htruthy; [|discriminate].
    simpl. intros [= <-]. exists header, token, svc.
    split; [reflexivity|]. split; [apply split_bearer; assumption|]. auto.
Qed.

End MiddlewareTheorems.

(** ** The properties at concrete inputs *)

Section Instances.

Import Examples.

Lemma sampleService_reachable : DataService.reachable sampleService.
Proof.
  apply (DataService.reachable_after freshService (DataService.LoadData (DataService.Parsed sampleRows))).
  apply (DataService.reachable_new (Some "data/prices.csv") None). reflexivity.
Qed.

(** The mean of 90.00 and 80.00 for "NSW"; nothing for "WA", for "nsw" and
    for "". *)
Lemma getMeanPrice_sample :
  DataService.getMeanPrice sampleService "NSW"
  = Some (Js.parseFloat_string "85")
  /\ DataService.getMeanPrice sampleService "WA" = None
  /\ DataService.getMeanPrice sampleService "nsw" = None
  /\ DataService.getMeanPrice sampleService "" = None.
Proof.
  pose proof (getMeanPrice_arithmetic_mean sampleService sampleService_reachable) as H.
  split; [|split; [|split]].
  - destruct (H "NSW") as [-> _]. vm_compute. reflexivity.
  - destruct (H "WA") as [-> _]. vm_compute. reflexivity.
  - destruct (H "nsw") as [-> _]. vm_compute. reflexivity.
  - destruct (H "") as (_ & _ & Hempty & _). apply Hempty. reflexivity.
Defined.

(** C3, as stated, fails: a row whose price is the text [Infinity] does
    not hold a finite number, its region and timestamp are not empty, and
    the load succeeds and stores an infinite price. *)
Lemma infinite_price_accepted :
  Js.isFinite (Js.parseFloat (DataService.raw_price infiniteRow)) = false
  /\ Js.truthy (DataService.raw_state infiniteRow) = true
  /\ Js.truthy (DataService.raw_timestamp infiniteRow) = true
  /\ DataService.loadData (DataService.Parsed [infiniteRow]) freshService
     = (inr tt,
        {| DataService.data :=
             [ {| DataService.state := Js.Str "NSW";
                  DataService.price := S754_infinity false;
                  DataService.timestamp := Js.Str "2025-06-24 00:00:00" |} ];
           DataService.states := [Js.Str "NSW"];
           DataService.csvFilePath := "data/prices.csv" |}).
Proof. vm_compute. repeat split; reflexivity. Qed.

(** C4, as stated, fails: the multi-user variable holds no valid pair, the
    legacy pair alone would give one credential, and construction fails
    with "no users". *)
Lemma legacy_ignored_when_multi_user_set :
  Forall (fun pair => Spec.validPair pair = false)
         (Js.split "," (default "" (AuthService.API_USERS fallbackEnv)))
  /\ AuthService.loadUsersFromEnv
       {| AuthService.JWT_SECRET := AuthService.JWT_SECRET fallbackEnv;
          AuthService.API_USERS := None;
          AuthService.API_USERNAME := AuthService.API_USERNAME fallbackEnv;
          AuthService.API_PASSWORD := AuthService.API_PASSWORD fallbackEnv |} ∅
     = {[ "legacyuser" := "legacypass" ]}
  /\ AuthService.constructor fallbackEnv = inl AuthService.NoUsersFound.
Proof.
  split; [|split].
  - repeat constructor.
  - reflexivity.
  - vm_compute. reflexivity.
Qed.

Lemma testService_constructed : AuthService.constructor testEnv = inr testService.
Proof. vm_compute. reflexivity. Qed.

Lemma token_roundtrip_test :
  exists token payload,
    AuthService.generateToken (H := bitCodec) testService "testuser"
      (AuthService.steady 1750723200000) = inr token
    /\ AuthService.validateToken (H := bitCodec) testService token 1750723200000
       = Some (Jwt.object_of payload)
    /\ Jwt.username payload = "testuser"
    /\ Jwt.exp payload - Jwt.iat payload = 86400
    /\ Jwt.get (Jwt.object_of payload) "username" = Some (Jwt.Text "testuser").
Proof.
  exact (@token_roundtrip bitCodec bitCodec_laws testEnv testService
           testService_constructed "testuser" 1750723200000).
Defined.

(** A token that expired is refused although its signature is valid. *)
Lemma validateToken_expired_test :
  Jwt.signature_valid oldJws (AuthService.jwtSecret testService) = true
  /\ AuthService.validateToken (H := bitCodec) testService
       (Jwt.serialize (Codec := bitCodec) oldJws) 200000 = None.
Proof.
  split; [reflexivity|].
  destruct (@validateToken_cases bitCodec testEnv testService testService_constructed
              (Jwt.serialize (Codec := bitCodec) oldJws) 200000)
    as (_ & _ & _ & _ & Hexpired & _).
  apply (Hexpired oldJws (Jwt.Finite (inject_Z 200))).
  - apply (@Jwt.parse_serialize bitCodec bitCodec_laws).
  - reflexivity.
  - reflexivity.
Defined.

Lemma validateToken_signed (j : Jwt.jws) (now : Z) :
  AuthService.validateToken (H := bitCodec) testService
    (Jwt.serialize (Codec := bitCodec) j) now
  = if negb (Jwt.signature_valid j "testsecret123") then None
    else match Jwt.checkClaims (Jwt.claims j) (now / 1000) with
         | inr decoded => Some decoded
         | inl _ => None
         end.
Proof.
  rewrite (validateToken_unfold (H := bitCodec)) by discriminate.
  rewrite (eqb_empty_false _ (@Jwt.serialize_nonempty bitCodec bitCodec_laws j)).
  rewrite (@Jwt.parse_serialize bitCodec bitCodec_laws). reflexivity.
Qed.

(** C6, as stated, fails: a token that is not empty, decodes, was signed
    with the service's secret and expires at second 400 is refused at
    second 200, because it is not to be used before second 300. So are a
    token whose [exp] is a text and one whose payload is [null], both
    signed with the service's secret. *)
Lemma not_yet_valid_token_refused :
  (let token := Jwt.serialize (Codec := bitCodec) earlyJws in
   token <> ""
   /\ Jwt.parse (Codec := bitCodec) token = Some earlyJws
   /\ Jwt.signature_valid earlyJws (AuthService.jwtSecret testService) = true
   /\ Jwt.get (Jwt.claims earlyJws) "exp" = Some (Jwt.Number (Jwt.Finite (inject_Z 400)))
   /\ Jwt.get (Jwt.claims earlyJws) "nbf" = Some (Jwt.Number (Jwt.Finite (inject_Z 300)))
   /\ 200000 < 1000 * 300
   /\ AuthService.validateToken (H := bitCodec) testService token 200000 = None)
  /\ (let token := Jwt.serialize (Codec := bitCodec) textExpJws in
      token <> ""
      /\ Jwt.parse (Codec := bitCodec) token = Some textExpJws
      /\ Jwt.signature_valid textExpJws (AuthService.jwtSecret testService) = true
      /\ Jwt.get (Jwt.claims textExpJws) "exp" = Some (Jwt.Text "tomorrow")
      /\ AuthService.validateToken (H := bitCodec) testService token 200000 = None)
  /\ (let token := Jwt.serialize (Codec := bitCodec) nullJws in
      token <> ""
      /\ Jwt.parse (Codec := bitCodec) token = Some nullJws
      /\ Jwt.signature_valid nullJws (AuthService.jwtSecret testService) = true
      /\ AuthService.validateToken (H := bitCodec) testService token 200000 = None).
Proof.
  split; [|split]; intros token; subst token;
    (split; [apply (@Jwt.serialize_nonempty bitCodec bitCodec_laws)|]);
    (split; [apply (@Jwt.parse_serialize bitCodec bitCodec_laws)|]);
    rewrite validateToken_signed; repeat split; try reflexivity; lia.
Qed.

(** A token without [exp] never expires, and a payload that is the number
    0 comes back from [validateToken] but does not open the gate. *)
Lemma open_and_falsy_tokens :
  AuthService.validateToken (H := bitCodec) testService
    (Jwt.serialize (Codec := bitCodec) openJws) 4102444800000
  = Some openClaims
  /\ AuthService.validateToken (H := bitCodec) testService
       (Jwt.serialize (Codec := bitCodec) zeroJws) 0
     = Some (Jwt.JsonNumber (Jwt.Finite (inject_Z 0)))
  /\ Jwt.truthy (Jwt.JsonNumber (Jwt.Finite (inject_Z 0))) = false.
Proof. rewrite !validateToken_signed. repeat split; reflexivity. Qed.

Lemma validateCredentials_test :
  AuthService.validateCredentials testService (Some "admin") (Some "adminpass") = true
  /\ AuthService.validateCredentials testService (Some "admin") (Some "testpass") = false
  /\ AuthService.validateCredentials testService (Some "wronguser") (Some "testpass") = false
  /\ AuthService.validateCredentials testService (Some "testuser") None = false.
Proof.
  destruct (validateCredentials_spec testEnv testService testService_constructed)
    as (Hin & Hmissing & Hunknown & Hwrong & _).
  split; [|split; [|split]].
  - apply Hin. reflexivity.
  - apply (Hwrong "admin" (Some "testpass") "adminpass"); [reflexivity|discriminate].
  - apply Hunknown. reflexivity.
  - apply Hmissing. right. reflexivity.
Defined.

Lemma region_index_sample :
  DataService.states sampleService = [Js.Str "Vic"; Js.Str "NSW"]
  /\ List.NoDup (DataService.states sampleService)
  /\ DataService.getAvailableStates
       (fold_left DataService.after
          [DataService.GetMeanPrice "Vic"; DataService.GetAvailableStates] sampleService)
     = DataService.states sampleService.
Proof.
  destruct (region_index_after_load (DataService.Parsed sampleRows) freshService eq_refl)
    as (Hidx & Hnodup & _ & _ & Hstable).
  split; [reflexivity|]. split; [exact Hnodup|].
  apply Hstable. reflexivity.
Defined.

(** The entry [user:p1:p2] stores the password [p1]. *)
Lemma colon_entry_test :
  exists svc, AuthService.constructor colonEnv = inr svc
              /\ AuthService.users svc = {[ "user" := "p1" ]}.
Proof.
  apply (proj1 multi_user_password_stops_at_colon "testsecret" "user" "p1" "p2" None None);
    (discriminate || reflexivity).
Defined.

(** A failed reload leaves the loaded data in place. *)
Lemma failed_reload_test :
  exists e, DataService.loadData (DataService.Parsed malformedRows) sampleService
            = (inl e, sampleService).
Proof.
  apply (proj1 (loadData_all_or_nothing (DataService.Parsed malformedRows) sampleService)
           malformedRows eq_refl).
  constructor. reflexivity.
Defined.

(** [Authorization: Token xyz] counts as no credentials. *)
Lemma wrong_scheme_test :
  fst (AuthMiddleware.authMiddleware (H := bitCodec) (Some testService) testEnv 0
         (Some "Token xyz"))
  = AuthMiddleware.Json 401 "Access token required".
Proof.
  destruct (@authMiddleware_gate bitCodec (Some testService) testEnv 0 (Some "Token xyz"))
    as (_ & Hshape & _).
  apply (Hshape "Token xyz" eq_refl).
  intros token (Hheader & _). discriminate Hheader.
Defined.

(** White space beyond ASCII is trimmed as the runtime trims it: around
    an entry of the multi-user form, in a price, in the fields of a login
    and in the [state] parameter. *)
Lemma no_break_space_is_white_space :
  Js.trim (noBreakSpace ++ "bob" ++ ideographicSpace) = "bob"
  /\ Js.trim (noBreakSpace ++ ideographicSpace) = ""
  /\ Js.parseFloat (Js.Str (noBreakSpace ++ " 12abc")) = Js.of_integer 12
  /\ AuthService.constructor (secretOnly (Some (noBreakSpace ++ ":pw")) None None)
     = inl AuthService.NoUsersFound
  /\ option_map AuthService.users
       (match AuthService.constructor
                (secretOnly (Some ("bob:p1," ++ noBreakSpace ++ "bob:p2")) None None) with
        | inr svc => Some svc
        | inl _ => None
        end)
     = Some {[ "bob" := "p2" ]}
  /\ option_map AuthService.users
       (match AuthService.constructor
                (secretOnly (Some (noBreakSpace ++ "bob:p1:p2")) None None) with
        | inr svc => Some svc
        | inl _ => None
        end)
     = Some {[ "bob" := "p1" ]}
  /\ fst (AuthRoutes.login (H := bitCodec) None
            (secretOnly None (Some noBreakSpace) (Some "pw")) (AuthService.steady 0)
            (Some (AuthRoutes.Text noBreakSpace, AuthRoutes.Text "pw")))
     = AuthRoutes.Failure 400 "Username and password are required"
  /\ fst (PriceRoutes.getPrice None (Some "data/prices.csv") (DataService.Parsed sampleRows)
            (PriceRoutes.Text noBreakSpace))
     = PriceRoutes.Failure 400 "State query parameter is required".
Proof. vm_compute. repeat split; reflexivity. Qed.

End Instances.

(** ** More about the dataset service *)

Section DataServiceMore.

Import DataService Spec Properties.

Lemma accepted_wellStored (record : RawRecord) :
  accepted record -> wellStored (toPriceRecord record).
Proof.
  unfold accepted, invalid, wellStored. simpl. intros H.
  apply orb_false_iff in H. destruct H as [H Ht].
  apply orb_false_iff in H. destruct H as [Hp Hs].
  apply negb_false_iff in Hs, Ht. auto.
Qed.

Lemma loadData_wellStored (src : Source) (svc : t) :
  Forall wellStored (data svc) -> Forall wellStored (data (snd (loadData src svc))).
Proof.
  intros Hsvc. destruct (loadData_cases src svc) as [[e ->]|(records & _ & Hall & ->)];
    [exact Hsvc|]. simpl.
  induction Hall as [|record rest Hr _ IH]; simpl; constructor.
  - apply accepted_wellStored. exact Hr.
  - exact IH.
Qed.

(** X1. Whatever was loaded, and however often, no record the service holds
    has a NaN price, a falsy region or a falsy timestamp. *)
Theorem stored_records_pass_the_row_check (svc : t) (Hsvc : reachable svc) :
  Forall wellStored (getAllData svc).
Proof.
  unfold getAllData. induction Hsvc as [path envPath svc Hnew|svc c _ IH].
  - unfold constructor in Hnew.
    destruct (negb (Js.nonempty path) && negb (Js.nonempty envPath)); [discriminate|].
    injection Hnew as <-. constructor.
  - destruct c; simpl; try exact IH. apply loadData_wellStored. exact IH.
Qed.

Lemma mapRecords_first_invalid (good rest : list RawRecord) (bad : RawRecord) :
  Forall accepted good -> invalid bad = true ->
  forall seen,
    mapRecords (good ++ bad :: rest)%list seen = inl (Error None (InvalidDataFormat bad)).
Proof.
  intros Hgood Hbad. induction Hgood as [|record good Hr _ IH]; intros seen; simpl.
  - rewrite Hbad. reflexivity.
  - unfold accepted in Hr. rewrite Hr, IH. reflexivity.
Qed.

(** X2. When the rows before a row all pass the row check and that row does
    not, the load fails with the parse error built from that row, whatever
    follows it, and the service is left as it was. *)
Theorem loadData_reports_first_invalid_row
    (good rest : list RawRecord) (bad : RawRecord) (svc : t)
    (Hgood : Forall accepted good) (Hbad : invalid bad = true) :
  loadData (Parsed (good ++ bad :: rest)%list) svc
  = (inl (ParseFailed (InvalidDataFormat bad)), svc).
Proof.
  simpl. rewrite (mapRecords_first_invalid good rest bad Hgood Hbad). reflexivity.
Qed.

(** X3. The kinds of failure do not mix: "file not found" is reported
    exactly when reading or parsing threw an error whose code is ENOENT,
    "unknown error" exactly when what was thrown is no Error, and a file
    that was read and parsed can only fail with the parse error of one of
    its rows that does not pass the row check. *)
Theorem loadData_error_kinds (src : Source) (svc : t) :
  (fst (loadData src svc) = inl FileNotFound
   <-> exists msg, src = ReadFails (Error (Some "ENOENT") msg)
                   \/ src = ParseFails (Error (Some "ENOENT") msg))
  /\ (fst (loadData src svc) = inl UnknownError
      <-> src = ReadFails NotAnError \/ src = ParseFails NotAnError)
  /\ (forall rows e,
        src = Parsed rows -> fst (loadData src svc) = inl e ->
        exists row, e = ParseFailed (InvalidDataFormat row)
                    /\ In row rows /\ invalid row = true).
Proof.
  assert (Hre : forall e,
             (rethrow e = FileNotFound <-> exists msg, e = Error (Some "ENOENT") msg)
             /\ (rethrow e = UnknownError <-> e = NotAnError)).
  { intros [code msg|]; simpl.
    - destruct code as [c|].
      + destruct (String.eqb_spec c "ENOENT") as [->|Hc].
        * split; split; try discriminate; eauto.
        * destruct (mentionsInvalidFormat msg); split; split; try discriminate;
            intros [m [= Hm _]]; congruence.
      + destruct (mentionsInvalidFormat msg); split; split; try discriminate;
          intros [m [= _]].
    - split; split; try discriminate; try reflexivity. intros [m Hm]. discriminate. }
  destruct src as [e|e|rows]; simpl.
  - destruct (Hre e) as [Hnf Hunk]. split; [|split].
    + split.
      * intros [= H]. apply Hnf in H. destruct H as [msg ->]. eauto.
      * intros [msg [[= ->]|[=]]]. reflexivity.
    + split.
      * intros [= H]. apply Hunk in H. subst. auto.
      * intros [[= ->]|[=]]. reflexivity.
    + intros rows e' [=].
  - destruct (Hre e) as [Hnf Hunk]. split; [|split].
    + split.
      * intros [= H]. apply Hnf in H. destruct H as [msg ->]. eauto.
      * intros [msg [[=]|[= ->]]]. reflexivity.
    + split.
      * intros [= H]. apply Hunk in H. subst. auto.
      * intros [[=]|[= ->]]. reflexivity.
    + intros rows e' [=].
  - pose proof (mapRecords_spec rows []) as Hspec.
    destruct (mapRecords rows []) as [ex|[out seen]]; simpl.
    + destruct Hspec as (row & -> & Hin & Hinv). simpl. split; [|split].
      * split; [discriminate|]. intros [msg [[=]|[=]]].
      * split; [discriminate|]. intros [[=]|[=]].
      * intros rows' e' [= <-] [= <-]. eauto.
    + split; [|split].
      * split; [discriminate|]. intros [msg [[=]|[=]]].
      * split; [discriminate|]. intros [[=]|[=]].
      * intros rows' e' _ [=].
Qed.

(** X4. Loading is idempotent and overwrites: loading the same source again
    gives the same outcome and the same service, and after a successful
    load the records and the index are those of the source alone, whatever
    the service held before. *)
Theorem loadData_idempotent_and_overwrites (src : Source) (svc : t) :
  loadData src (snd (loadData src svc)) = loadData src svc
  /\ (forall svc',
        fst (loadData src svc) = inr tt ->
        fst (loadData src svc') = inr tt
        /\ data (snd (loadData src svc')) = data (snd (loadData src svc))
        /\ states (snd (loadData src svc')) = states (snd (loadData src svc))).
Proof.
  split.
  - destruct (loadData_cases src svc) as [[e H]|(records & -> & Hall & H)].
    + rewrite H. simpl. exact H.
    + rewrite H. unfold loadData. rewrite (mapRecords_accepts records [] Hall).
      rewrite addAll_empty by (apply accepted_allTruthy; exact Hall). reflexivity.
  - intros svc' Hok.
    destruct (loadData_cases src svc) as [[e H]|(records & -> & Hall & H)];
      [rewrite H in Hok; discriminate|].
    destruct (loadData_cases (Parsed records) svc') as [[e H']|(records' & [= <-] & _ & H')].
    + exfalso. simpl in H'. rewrite (mapRecords_accepts records [] Hall) in H'. discriminate.
    + rewrite H, H'. auto.
Qed.

Lemma getStateData_filter (svc : t) (r : string) :
  reachable svc -> getStateData svc r = recordsOfRegion (data svc) r.
Proof.
  intros Hsvc. unfold getStateData, recordsOfRegion.
  destruct (String.eqb_spec r "") as [->|Hr]; [|reflexivity].
  destruct (reachable_consistent svc Hsvc) as [Htruthy _].
  symmetry. induction (data svc) as [|record l IH]; simpl; [reflexivity|].
  inversion Htruthy as [|? ? Hrec Hl]; subst.
  destruct (Js.strict_eq (state record) (Js.Str "")) eqn:Heq.
  - apply strict_eq_Str in Heq. rewrite Heq in Hrec. discriminate.
  - apply IH. exact Hl.
Qed.

Lemma recordsOfRegion_nonempty (records : list PriceRecord) (r : string) :
  recordsOfRegion records r <> [] <-> In (Js.Str r) (map state records).
Proof.
  unfold recordsOfRegion. induction records as [|record l IH]; simpl; [tauto|].
  destruct (Js.strict_eq (state record) (Js.Str r)) eqn:Heq.
  - apply strict_eq_Str in Heq. split; [auto|discriminate].
  - rewrite IH. split; [auto|]. intros [H|H]; [|exact H].
    rewrite H in Heq. simpl in Heq. rewrite String.eqb_refl in Heq. discriminate.
Qed.

(** X5. On every service a program can hold, [getMeanPrice r] gives a
    number exactly when the text [r] is one of the regions
    [getAvailableStates] lists. *)
Theorem getMeanPrice_defined_iff_listed (svc : t) (Hsvc : reachable svc) (r : string) :
  (exists mean, getMeanPrice svc r = Some mean) <-> In (Js.Str r) (getAvailableStates svc).
Proof.
  destruct (reachable_consistent svc Hsvc) as [Htruthy Hidx].
  unfold getAvailableStates. rewrite Hidx.
  assert (Hlisted : In (Js.Str r) (distinctFirstSeen (map state (data svc)))
                    <-> In (Js.Str r) (map state (data svc))).
  { split; [apply distinctFirstSeen_incl|apply distinctFirstSeen_complete; exact Htruthy]. }
  rewrite Hlisted, <- recordsOfRegion_nonempty.
  unfold getMeanPrice. rewrite (getStateData_filter svc r Hsvc).
  destruct (recordsOfRegion (data svc) r) as [|record l]; simpl.
  - split; [intros [mean [=]]|congruence].
  - split; [discriminate|eauto].
Qed.

End DataServiceMore.

Section RecordCounts.

Import DataService Spec Properties.

Lemma list_sum_filter_split {A : Type} (f : A -> nat) (p : A -> bool) (l : list A) :
  list_sum (map f l)
  = (list_sum (map f (List.filter p l))
     + list_sum (map f (List.filter (fun x => negb (p x)) l)))%nat.
Proof.
  induction l as [|a l IH]; simpl; [reflexivity|].
  destruct (p a); simpl; lia.
Qed.

Lemma NoDup_all_equal {A : Type} (a : A) (l : list A) :
  List.NoDup l -> (forall x, In x l -> x = a) -> l = [] \/ l = [a].
Proof.
  intros Hnd Hall. destruct l as [|x [|y l]]; [auto| |].
  - right. f_equal. apply Hall. simpl. auto.
  - exfalso. inversion Hnd as [|? ? Hx _]; subst. apply Hx.
    rewrite (Hall x), (Hall y); simpl; auto.
Qed.

Lemma length_filter_map {A B : Type} (f : A -> B) (p : B -> bool) (l : list A) :
  length (List.filter p (map f l)) = length (List.filter (fun x => p (f x)) l).
Proof.
  induction l as [|a l IH]; simpl; [reflexivity|].
  destruct (p (f a)); simpl; rewrite IH; reflexivity.
Qed.

Lemma occurrences_of_first (k : list Js.value) (a : Js.value) :
  allTruthy k -> Js.truthy a = true ->
  list_sum (map (fun x => length (List.filter (Js.same_value_zero x) k))
                (List.filter (Js.same_value_zero a) (distinctFirstSeen k)))
  = length (List.filter (Js.same_value_zero a) k).
Proof.
  intros Hk Ha.
  assert (Hall : forall x, In x (List.filter (Js.same_value_zero a) (distinctFirstSeen k))
                           -> x = a).
  { intros x Hx. apply List.filter_In in Hx. destruct Hx as [_ Hx].
    symmetry. apply same_value_zero_eq; assumption. }
  pose proof (List.NoDup_filter (Js.same_value_zero a) (distinctFirstSeen_NoDup k)) as Hnd.
  destruct (NoDup_all_equal a _ Hnd Hall) as [Hnil|Hone].
  - rewrite Hnil. simpl.
    destruct (List.filter (Js.same_value_zero a) k) as [|y l] eqn:Hf; [reflexivity|].
    exfalso. assert (Hy : In y (List.filter (Js.same_value_zero a) k)) by (rewrite Hf; simpl; auto).
    apply List.filter_In in Hy. destruct Hy as [Hin Hsv].
    apply same_value_zero_eq in Hsv; [|exact Ha]. subst y.
    assert (Hd : In a (List.filter (Js.same_value_zero a) (distinctFirstSeen k))).
    { apply List.filter_In. split; [|apply same_value_zero_refl].
      apply distinctFirstSeen_complete; assumption. }
    rewrite Hnil in Hd. destruct Hd.
  - rewrite Hone. simpl. lia.
Qed.

(** The occurrences of the distinct values of a sequence add up to its
    length. *)
Lemma occurrences_add_up (k : list Js.value) :
  allTruthy k ->
  list_sum (map (fun x => length (List.filter (Js.same_value_zero x) k))
                (distinctFirstSeen k))
  = length k.
Proof.
  induction k as [|a t IH]; intros Hk; [reflexivity|].
  inversion Hk as [|? ? Ha Ht]; subst. specialize (IH Ht).
  change (distinctFirstSeen (a :: t))
    with (a :: List.filter (fun y => negb (Js.same_value_zero a y)) (distinctFirstSeen t)).
  rewrite map_cons.
  rewrite (list_sum_filter_split _ (Js.same_value_zero a)) in IH.
  rewrite (occurrences_of_first t a Ht Ha) in IH.
  assert (Hrest : map (fun x => length (List.filter (Js.same_value_zero x) (a :: t)))
                      (List.filter (fun y => negb (Js.same_value_zero a y)) (distinctFirstSeen t))
                  = map (fun x => length (List.filter (Js.same_value_zero x) t))
                        (List.filter (fun y => negb (Js.same_value_zero a y)) (distinctFirstSeen t))).
  { apply map_ext_in. intros x Hx. apply List.filter_In in Hx. destruct Hx as [Hin Hsv].
    cbn [List.filter].
    destruct (Js.same_value_zero x a) eqn:Hxa; [|reflexivity].
    exfalso. apply same_value_zero_eq in Hxa.
    - subst x. rewrite same_value_zero_refl in Hsv. discriminate.
    - apply distinctFirstSeen_incl in Hin. unfold allTruthy in Ht.
      rewrite List.Forall_forall in Ht. apply Ht. exact Hin. }
  rewrite Hrest. change (list_sum (?x :: ?l)) with (x + list_sum l)%nat.
  cbn [List.filter]. rewrite same_value_zero_refl. cbn [length]. lia.
Qed.

Lemma same_value_zero_Str (r : string) (v : Js.value) :
  Js.same_value_zero (Js.Str r) v = Js.strict_eq v (Js.Str r).
Proof. destruct v as [|s|x]; simpl; try reflexivity. apply String.eqb_sym. Qed.

(** X6. When every listed region is a text, the record counts of the listed
    regions add up to the number of records: the regions split the records
    without loss or overlap. *)
Theorem record_counts_add_up (svc : t) (Hsvc : reachable svc)
    (Htexts : Forall isText (getAvailableStates svc)) :
  list_sum (map (recordCount svc) (getAvailableStates svc)) = length (getAllData svc).
Proof.
  destruct (reachable_consistent svc Hsvc) as [Htruthy Hidx].
  unfold getAvailableStates, getAllData in *.
  rewrite <- (length_map state (data svc)), <- (occurrences_add_up _ Htruthy), <- Hidx.
  f_equal. apply map_ext_in. intros region Hin.
  rewrite List.Forall_forall in Htexts. specialize (Htexts region Hin).
  destruct region as [|r|x]; try contradiction. simpl.
  rewrite (getStateData_filter svc r Hsvc). unfold recordsOfRegion.
  rewrite length_filter_map. f_equal. apply filter_ext_In'. intros record _.
  symmetry. apply same_value_zero_Str.
Qed.

(** X7. The constructor throws exactly when neither an argument nor the
    environment names a file; otherwise the service reads the argument if
    there is one and the environment's path if not, the path is not empty,
    it holds no data, and no call ever changes the path. *)
Theorem csvFilePath_fixed_at_construction (csvPath envPath : option string) :
  (constructor csvPath envPath = None
   <-> Js.nonempty csvPath = false /\ Js.nonempty envPath = false)
  /\ (forall svc,
        constructor csvPath envPath = Some svc ->
        csvFilePath svc = (if Js.nonempty csvPath then default "" csvPath
                           else default "" envPath)
        /\ csvFilePath svc <> ""
        /\ getAllData svc = [] /\ getAvailableStates svc = []
        /\ forall calls, csvFilePath (fold_left after calls svc) = csvFilePath svc).
Proof.
  assert (Hcalls : forall calls s, csvFilePath (fold_left after calls s) = csvFilePath s).
  { induction calls as [|c calls IH]; intros s; simpl; [reflexivity|].
    rewrite IH. destruct c; simpl; try reflexivity.
    destruct (loadData_cases src s) as [[e ->]|(records & _ & _ & ->)]; reflexivity. }
  unfold constructor.
  destruct (Js.nonempty csvPath) eqn:Hc; simpl.
  - split; [split; [discriminate|intros [? _]; discriminate]|].
    intros svc [= <-]. simpl.
    apply nonempty_Some in Hc. destruct Hc as (s & -> & Hs). simpl. auto.
  - destruct (Js.nonempty envPath) eqn:He; simpl.
    + split; [split; [discriminate|intros [_ ?]; discriminate]|].
      intros svc [= <-]. simpl.
      apply nonempty_Some in He. destruct He as (s & -> & Hs). simpl. auto.
    + split; [split; auto|]. intros svc [=].
Qed.

End RecordCounts.

(** ** More about the credential store and its tokens *)

Section AuthServiceMore.

Import AuthService Spec Properties.

Lemma addPair_lookup (users : gmap string string) (pair u : string) :
  addPair users pair !! u
  = if validPair pair && String.eqb (fst (pairFields pair)) u
    then Some (snd (pairFields pair))
    else users !! u.
Proof.
  rewrite addPair_validPair. destruct (validPair pair); simpl; [|reflexivity].
  destruct (String.eqb_spec (fst (pairFields pair)) u) as [->|Hne].
  - apply lookup_insert_eq.
  - apply lookup_insert_ne. exact Hne.
Qed.

Lemma entryOf_eqb (u pair : string) :
  validPair pair && String.eqb (fst (pairFields pair)) u = true <-> entryOf u pair.
Proof.
  unfold entryOf. rewrite andb_true_iff, String.eqb_eq. tauto.
Qed.

Lemma fold_addPair_lookup (pairs : list string) :
  forall (users : gmap string string) (u p : string),
    fold_left addPair pairs users !! u = Some p
    <-> (exists before pair after,
            pairs = (before ++ pair :: after)%list
            /\ entryFor u p pair
            /\ Forall (fun later => ~ entryOf u later) after)
        \/ (users !! u = Some p /\ Forall (fun later => ~ entryOf u later) pairs).
Proof.
  induction pairs as [|q t IH]; intros users u p; simpl.
  - split.
    + intros H. right. split; [exact H|constructor].
    + intros [(before & pair & after & Heq & _)|[H _]]; [|exact H].
      destruct before; discriminate.
  - rewrite IH, addPair_lookup.
    destruct (validPair q && String.eqb (fst (pairFields q)) u) eqn:Hq.
    + apply entryOf_eqb in Hq. split.
      * intros [(before & pair & after & -> & Hpair & Hafter)|[[= <-] Hafter]].
        -- left. exists (q :: before), pair, after. auto.
        -- left. exists [], q, t. split; [reflexivity|]. split; [|exact Hafter].
           destruct Hq as [Hv Hf]. split; [exact Hv|].
           rewrite <- Hf. apply surjective_pairing.
      * intros [(before & pair & after & Heq & Hpair & Hafter)|[_ Hall]].
        -- destruct before as [|b before]; simpl in Heq; injection Heq as <- ->.
           ++ right. split; [|exact Hafter]. destruct Hpair as [_ Hf]. rewrite Hf. reflexivity.
           ++ left. exists before, pair, after. auto.
        -- inversion Hall as [|? ? Hnot _]; subst. destruct (Hnot Hq).
    + assert (Hnot : ~ entryOf u q).
      { intros H. apply entryOf_eqb in H. congruence. }
      split.
      * intros [(before & pair & after & -> & Hpair & Hafter)|[Hu Hafter]].
        -- left. exists (q :: before), pair, after. auto.
        -- right. split; [exact Hu|]. constructor; assumption.
      * intros [(before & pair & after & Heq & Hpair & Hafter)|[Hu Hall]].
        -- destruct before as [|b before]; simpl in Heq; injection Heq as <- ->.
           ++ destruct Hnot. destruct Hpair as [Hv Hf]. split; [exact Hv|]. rewrite Hf. reflexivity.
           ++ left. exists before, pair, after. auto.
        -- right. split; [exact Hu|]. inversion Hall; assumption.
Qed.

(** X8. In the multi-user form the last valid entry for a user name wins:
    the stored password of [u] is [p] exactly when some entry is a valid
    pair for [u] with password [p] and no later entry is a valid pair for
    [u]. *)
Theorem multi_user_last_entry_wins (env : Env) (svc : t)
    (Hmulti : Js.nonempty (API_USERS env) = true)
    (Hnew : constructor env = inr svc) (u p : string) :
  users svc !! u = Some p
  <-> exists before pair after,
        Js.split "," (default "" (API_USERS env)) = (before ++ pair :: after)%list
        /\ entryFor u p pair
        /\ Forall (fun later => ~ entryOf u later) after.
Proof.
  destruct (constructor_inr env svc Hnew) as (_ & _ & -> & _).
  unfold loadUsersFromEnv. rewrite Hmulti. rewrite fold_addPair_lookup.
  split; [|auto]. intros [H|[H _]]; [exact H|].
  rewrite lookup_empty in H. discriminate.
Qed.

Context {C : Jwt.Codec}.

(** The token [jwt.sign] writes for a payload under a secret. *)
Lemma generateToken_signed (svc : t) (username : string) (clock : Clock) (token : string) :
  generateToken svc username clock = inr token ->
  jwtSecret svc <> ""
  /\ exists issued,
       token = Jwt.serialize
                 {| Jwt.claims :=
                      Jwt.object_of {| Jwt.username := username; Jwt.iat := issued;
                                       Jwt.exp := at_exp clock / 1000 + 86400 |};
                    Jwt.tag :=
                      Jwt.HMAC (jwtSecret svc)
                        (Jwt.object_of {| Jwt.username := username; Jwt.iat := issued;
                                          Jwt.exp := at_exp clock / 1000 + 86400 |}) |}
       /\ (at_iat clock / 1000 <> 0 -> issued = at_iat clock / 1000)
       /\ (at_iat clock / 1000 = 0 -> issued = at_sign clock / 1000).
Proof.
  unfold generateToken, Jwt.sign.
  destruct (String.eqb_spec (jwtSecret svc) "") as [He|Hne]; [discriminate|].
  simpl. intros [= <-]. split; [exact Hne|].
  change (24 * 60 * 60) with 86400.
  destruct (at_iat clock / 1000 =? 0) eqn:Hz.
  - apply Z.eqb_eq in Hz. eexists. split; [reflexivity|]. split; [congruence|reflexivity].
  - apply Z.eqb_neq in Hz. eexists. split; [reflexivity|]. split; [reflexivity|congruence].
Qed.

Lemma generateToken_succeeds (svc : t) (username : string) (clock : Clock) :
  jwtSecret svc <> "" -> exists token, generateToken svc username clock = inr token.
Proof.
  intros Hs. unfold generateToken, Jwt.sign. rewrite (eqb_empty_false _ Hs). eauto.
Qed.

Lemma validateToken_own_token (L : Jwt.CodecLaws C) (svc : t) (p : Jwt.JWTPayload) (now : Z) :
  jwtSecret svc <> "" ->
  validateToken svc
    (Jwt.serialize {| Jwt.claims := Jwt.object_of p;
                      Jwt.tag := Jwt.HMAC (jwtSecret svc) (Jwt.object_of p) |}) now
  = if Jwt.exp p <=? now / 1000 then None else Some (Jwt.object_of p).
Proof.
  intros Hs. rewrite validateToken_unfold by exact Hs.
  rewrite (eqb_empty_false _ (Jwt.serialize_nonempty _)), Jwt.parse_serialize.
  rewrite signature_valid_own. simpl negb. cbv iota.
  cbn [Jwt.claims]. rewrite checkClaims_object_of.
  destruct (Jwt.exp p <=? now / 1000); reflexivity.
Qed.

(** X9. A token issued at clock time [t] is accepted at every clock time
    whose second is before that of [t] plus 86400, earlier times included,
    and refused from that second on. *)
Theorem issued_token_validity_window (L : Jwt.CodecLaws C) (env : Env) (svc : t)
    (Hnew : constructor env = inr svc) (username : string) (t now : Z) :
  exists token,
    generateToken svc username (steady t) = inr token
    /\ (now / 1000 < t / 1000 + 86400 ->
        validateToken svc token now
        = Some (Jwt.object_of {| Jwt.username := username; Jwt.iat := t / 1000;
                                 Jwt.exp := t / 1000 + 86400 |}))
    /\ (t / 1000 + 86400 <= now / 1000 -> validateToken svc token now = None).
Proof.
  destruct (constructor_inr env svc Hnew) as (_ & Hs & _).
  destruct (generateToken_succeeds svc username (steady t) Hs) as [token Htoken].
  exists token. split; [exact Htoken|].
  destruct (generateToken_signed svc username (steady t) token Htoken)
    as (_ & issued & -> & Hnz & Hz).
  assert (Hissued : issued = t / 1000).
  { simpl in Hnz, Hz. destruct (Z.eq_dec (t / 1000) 0) as [H0|H0]; auto. }
  subst issued. simpl. rewrite (validateToken_own_token L svc _ now Hs). simpl.
  split; intros H.
  - destruct (t / 1000 + 86400 <=? now / 1000) eqn:Hle; [|reflexivity].
    apply Z.leb_le in Hle. lia.
  - apply Z.leb_le in H. rewrite H. reflexivity.
Qed.

(** X10. A token issued by a service is refused, at any time, by a service
    that holds another secret. *)
Theorem token_of_another_secret_refused (L : Jwt.CodecLaws C) (issuer verifier : t)
    (username : string) (clock : Clock) (token : string) (now : Z)
    (Hissued : generateToken issuer username clock = inr token)
    (Hsecrets : jwtSecret issuer <> jwtSecret verifier) :
  validateToken verifier token now = None.
Proof.
  destruct (generateToken_signed issuer username clock token Hissued)
    as (_ & issued & -> & _).
  unfold validateToken, Jwt.verify.
  rewrite (eqb_empty_false _ (Jwt.serialize_nonempty _)), Jwt.parse_serialize.
  destruct (String.eqb (jwtSecret verifier) ""); [reflexivity|].
  unfold Jwt.signature_valid. simpl.
  apply String.eqb_neq in Hsecrets. rewrite Hsecrets. reflexivity.
Qed.

End AuthServiceMore.

(** ** More about the gate *)

Section MiddlewareMore.

Import AuthMiddleware Spec Properties.

Context {C : Jwt.Codec}.

Lemma authMiddleware_bearer (authService : option AuthService.t) (env : AuthService.Env)
    (now : Z) (header token : string) :
  bearer header token ->
  authMiddleware authService env now (Some header)
  = match getAuthService authService env with
    | inl _ => (Json 401 "Invalid token", authService)
    | inr svc =>
        match AuthService.validateToken svc token now with
        | None => (Json 401 "Invalid token", Some svc)
        | Some user =>
            if Jwt.truthy user then (Next user, Some svc)
            else (Json 401 "Invalid token", Some svc)
        end
    end.
Proof.
  intros Hbearer. pose proof (bearer_split header token Hbearer) as Hsplit.
  destruct Hbearer as (Hheader & Htoken & _).
  assert (Hne : String.eqb header "" = false).
  { apply String.eqb_neq. rewrite Hheader. discriminate. }
  unfold authMiddleware. rewrite Hne, Hsplit.
  apply String.eqb_neq in Htoken. rewrite Htoken. reflexivity.
Qed.

Lemma authMiddleware_not_bearer (authService : option AuthService.t) (env : AuthService.Env)
    (now : Z) (authorization : option string) :
  (forall header token, authorization = Some header -> ~ bearer header token) ->
  authMiddleware authService env now authorization
  = (Json 401 "Access token required", authService).
Proof.
  intros Hnot. destruct authorization as [header|]; [|reflexivity]. simpl.
  destruct (String.eqb header ""); [reflexivity|].
  destruct (Js.split " " header) as [|scheme [|token [|extra parts]]] eqn:Hsplit;
    try reflexivity.
  destruct (negb (String.eqb scheme "Bearer") || String.eqb token "") eqn:Hcheck;
    [reflexivity|].
  apply orb_false_iff in Hcheck. destruct Hcheck as [Hscheme Htoken].
  apply negb_false_iff, String.eqb_eq in Hscheme. apply String.eqb_neq in Htoken.
  subst scheme. destruct (Hnot header token eq_refl). apply split_bearer; assumption.
Qed.

(** Whether a header has the bearer form can be decided. *)
Lemma bearer_decidable (authorization : option string) :
  (exists header token, authorization = Some header /\ bearer header token)
  \/ (forall header token, authorization = Some header -> ~ bearer header token).
Proof.
  destruct authorization as [header|]; [|right; intros ? ? [=]].
  destruct (Js.split " " header) as [|scheme [|token [|extra parts]]] eqn:Hsplit;
    try (right; intros h t [= <-] Hb; apply bearer_split in Hb; congruence).
  destruct (String.eqb_spec scheme "Bearer") as [->|Hs];
    [|right; intros h t [= <-] Hb; apply bearer_split in Hb; congruence].
  destruct (String.eqb_spec token "") as [->|Ht].
  - right. intros h t [= <-] Hb. pose proof (bearer_split _ _ Hb) as Hsp.
    destruct Hb as (_ & Hne & _). congruence.
  - left. exists header, token. split; [reflexivity|]. apply split_bearer; assumption.
Qed.

(** X11. Once the gate holds a service it never reads the environment again
    and never replaces the service. Without one, a request whose header
    lacks the bearer form builds none, and a request with a header of that
    form builds it from the environment and keeps it when that succeeds. *)
Theorem authMiddleware_service_cache (env : AuthService.Env) (now : Z)
    (authorization : option string) :
  (forall svc env',
      authMiddleware (Some svc) env now authorization
      = authMiddleware (Some svc) env' now authorization
      /\ snd (authMiddleware (Some svc) env now authorization) = Some svc)
  /\ ((forall header token, authorization = Some header -> ~ bearer header token) ->
      snd (authMiddleware None env now authorization) = None)
  /\ (forall header token,
        authorization = Some header -> bearer header token ->
        snd (authMiddleware None env now authorization)
        = match AuthService.constructor env with
          | inr svc => Some svc
          | inl _ => None
          end).
Proof.
  split; [|split].
  - intros svc env'.
    destruct (bearer_decidable authorization) as [(header & token & -> & Hb)|Hnot].
    + rewrite !(authMiddleware_bearer _ _ _ _ _ Hb). simpl.
      split; [reflexivity|].
      destruct (AuthService.validateToken svc token now) as [user|]; [|reflexivity].
      destruct (Jwt.truthy user); reflexivity.
    + rewrite !(authMiddleware_not_bearer _ _ _ _ Hnot). auto.
  - intros Hnot. rewrite (authMiddleware_not_bearer _ _ _ _ Hnot). reflexivity.
  - intros header token -> Hb. rewrite (authMiddleware_bearer _ _ _ _ _ Hb). simpl.
    destruct (AuthService.constructor env) as [e|svc]; [reflexivity|].
    destruct (AuthService.validateToken svc token now) as [user|]; [|reflexivity].
    destruct (Jwt.truthy user); reflexivity.
Qed.

(** X12. The gate lets the request through or answers 401, with one of its
    two bodies; it has no other answer. *)
Theorem authMiddleware_answers (authService : option AuthService.t)
    (env : AuthService.Env) (now : Z) (authorization : option string) :
  (exists user, fst (authMiddleware authService env now authorization) = Next user)
  \/ fst (authMiddleware authService env now authorization)
     = Json 401 "Access token required"
  \/ fst (authMiddleware authService env now authorization) = Json 401 "Invalid token".
Proof.
  destruct (bearer_decidable authorization) as [(header & token & -> & Hb)|Hnot].
  - rewrite (authMiddleware_bearer _ _ _ _ _ Hb).
    destruct (getAuthService authService env) as [e|svc]; [auto|].
    destruct (AuthService.validateToken svc token now) as [user|]; simpl; [|auto].
    destruct (Jwt.truthy user); simpl; eauto.
  - rewrite (authMiddleware_not_bearer _ _ _ _ Hnot). auto.
Qed.

End MiddlewareMore.

(** ** The routes *)

Section RoutesMore.

Import Spec Properties.

Context {C : Jwt.Codec}.

Lemma trim_nonempty (s : string) : Js.trim s <> "" -> s <> "".
Proof. intros H ->. apply H. reflexivity. Qed.

Lemma validateCredentials_texts (svc : AuthService.t) (u p : string) :
  u <> "" -> p <> "" ->
  AuthService.validateCredentials svc (Some u) (Some p) = true
  <-> AuthService.users svc !! u = Some p.
Proof.
  intros Hu Hp. unfold AuthService.validateCredentials. simpl.
  rewrite (eqb_empty_false u Hu), (eqb_empty_false p Hp). simpl.
  destruct (AuthService.users svc !! u) as [stored|]; [|split; discriminate].
  rewrite String.eqb_eq. split; congruence.
Qed.

Lemma login_texts (authService : option AuthService.t) (env : AuthService.Env)
    (svc : AuthService.t) (clock : AuthService.Clock) (u p : string) :
  AuthRoutes.getAuthService authService env = inr svc ->
  Js.trim u <> "" -> Js.trim p <> "" ->
  AuthRoutes.login authService env clock (Some (AuthRoutes.Text u, AuthRoutes.Text p))
  = if negb (AuthService.validateCredentials svc (Some u) (Some p))
    then (AuthRoutes.Failure 401 "Invalid credentials", Some svc)
    else match AuthService.generateToken svc u clock with
         | inl _ => (AuthRoutes.Failure 500 "Internal server error", Some svc)
         | inr token => (AuthRoutes.LoginResponse token (24 * 60 * 60), Some svc)
         end.
Proof.
  intros Hsvc Hu Hp. unfold AuthRoutes.login. simpl.
  rewrite (eqb_empty_false u (trim_nonempty u Hu)), (eqb_empty_false p (trim_nonempty p Hp)).
  simpl. rewrite (eqb_empty_false _ Hu), (eqb_empty_false _ Hp), Hsvc. reflexivity.
Qed.

Lemma login_response_inv (authService : option AuthService.t) (env : AuthService.Env)
    (clock : AuthService.Clock) (body : option (AuthRoutes.field * AuthRoutes.field))
    (token : string) (expiresIn : Z) :
  fst (AuthRoutes.login authService env clock body) = AuthRoutes.LoginResponse token expiresIn ->
  exists u p svc,
    body = Some (AuthRoutes.Text u, AuthRoutes.Text p)
    /\ Js.trim u <> "" /\ Js.trim p <> ""
    /\ AuthRoutes.getAuthService authService env = inr svc
    /\ AuthService.validateCredentials svc (Some u) (Some p) = true
    /\ AuthService.generateToken svc u clock = inr token
    /\ expiresIn = 86400.
Proof.
  unfold AuthRoutes.login. destruct body as [[username password]|]; [|discriminate].
  destruct (AuthRoutes.falsy username || AuthRoutes.falsy password); [discriminate|].
  destruct username as [|u|]; try discriminate.
  destruct (String.eqb_spec (Js.trim u) "") as [|Hu]; [discriminate|].
  destruct password as [|p|]; try discriminate.
  destruct (String.eqb_spec (Js.trim p) "") as [|Hp]; [discriminate|].
  destruct (AuthRoutes.getAuthService authService env) as [e|svc] eqn:Hsvc; [discriminate|].
  destruct (AuthService.validateCredentials svc (Some u) (Some p)) eqn:Hvalid;
    simpl; [|discriminate].
  destruct (AuthService.generateToken svc u clock) as [e|tok] eqn:Htok; [discriminate|].
  simpl. intros [= <- <-]. exists u, p, svc. repeat split; auto.
Qed.

(** X13. With a service built from the environment (held already, or built
    on this request), [POST /login] answers with a token exactly when both
    fields of the body are texts that are not blank and the pair is in the
    credential set; the lifetime it announces is then 86400 seconds. *)
Theorem login_issues_token_iff (env : AuthService.Env) (svc : AuthService.t)
    (Hnew : AuthService.constructor env = inr svc)
    (authService : option AuthService.t)
    (Hheld : authService = None \/ authService = Some svc)
    (clock : AuthService.Clock) (body : option (AuthRoutes.field * AuthRoutes.field)) :
  ((exists token expiresIn,
       fst (AuthRoutes.login authService env clock body)
       = AuthRoutes.LoginResponse token expiresIn)
   <-> exists u p,
         body = Some (AuthRoutes.Text u, AuthRoutes.Text p)
         /\ Js.trim u <> "" /\ Js.trim p <> ""
         /\ AuthService.users svc !! u = Some p)
  /\ (forall token expiresIn,
        fst (AuthRoutes.login authService env clock body)
        = AuthRoutes.LoginResponse token expiresIn -> expiresIn = 86400).
Proof.
  assert (Hsvc : AuthRoutes.getAuthService authService env = inr svc).
  { destruct Hheld as [->| ->]; [exact Hnew|reflexivity]. }
  destruct (constructor_inr env svc Hnew) as (_ & Hs & _).
  split; [split|].
  - intros (token & expiresIn & Hlogin).
    destruct (login_response_inv _ _ _ _ _ _ Hlogin)
      as (u & p & svc' & -> & Hu & Hp & Hsvc' & Hvalid & _).
    rewrite Hsvc in Hsvc'. injection Hsvc' as <-.
    exists u, p. repeat split; try assumption.
    apply validateCredentials_texts; auto using trim_nonempty.
  - intros (u & p & -> & Hu & Hp & Hin).
    rewrite (login_texts authService env svc clock u p Hsvc Hu Hp).
    apply validateCredentials_texts in Hin; auto using trim_nonempty. rewrite Hin. simpl.
    destruct (generateToken_succeeds svc u clock Hs) as [token ->]. eauto.
  - intros token expiresIn Hlogin.
    destruct (login_response_inv _ _ _ _ _ _ Hlogin) as (u & p & svc' & _ & _ & _ & _ & _ & _ & He).
    exact He.
Qed.


Lemma getPrice_state (dataService : option DataService.t) (envPath : option string)
    (service : DataService.t) (src : DataService.Source) (st : string) :
  PriceRoutes.getDataService dataService envPath = Some service ->
  Js.trim st <> "" ->
  PriceRoutes.getPrice dataService envPath src (PriceRoutes.Text st)
  = match DataService.loadData src service with
    | (inl _, service') =>
        (PriceRoutes.Failure 500 "Failed to load price data", Some service')
    | (inr _, service') =>
        match DataService.getMeanPrice service' st with
        | None => (PriceRoutes.Failure 404 ("No data found for state: " ++ st), Some service')
        | Some meanPrice =>
            (PriceRoutes.PriceResponse st meanPrice
               (length (DataService.getStateData service' st)), Some service')
        end
    end.
Proof.
  intros Hsvc Hst. unfold PriceRoutes.getPrice.
  rewrite (eqb_empty_false _ Hst), (eqb_empty_false _ (trim_nonempty st Hst)), Hsvc.
  reflexivity.
Qed.

Lemma filter_toPriceRecord (rows : list DataService.RawRecord) (st : string) :
  List.filter (fun record => Js.strict_eq (DataService.state record) (Js.Str st))
              (map DataService.toPriceRecord rows)
  = map DataService.toPriceRecord (rowsOfRegion rows st).
Proof.
  unfold rowsOfRegion. induction rows as [|row rows IH]; simpl; [reflexivity|].
  destruct (Js.strict_eq (DataService.raw_state row) (Js.Str st)); simpl; rewrite IH;
    reflexivity.
Qed.

(** X15. For a state that is not blank and a file whose rows all pass the
    row check, [GET /] answers from the file alone, whatever the service
    held before: 404 when no row has that region, and otherwise the state,
    the arithmetic mean of the prices of the rows of that region and their
    number, which is at least one. *)
Theorem getPrice_answers_from_the_file
    (dataService : option DataService.t) (envPath : option string)
    (service : DataService.t) (rows : list DataService.RawRecord) (st : string)
    (Hservice : PriceRoutes.getDataService dataService envPath = Some service)
    (Hrows : Forall accepted rows) (Hst : Js.trim st <> "") :
  fst (PriceRoutes.getPrice dataService envPath (DataService.Parsed rows) (PriceRoutes.Text st))
  = match rowsOfRegion rows st with
    | [] => PriceRoutes.Failure 404 ("No data found for state: " ++ st)
    | matching =>
        PriceRoutes.PriceResponse st
          (arithmeticMean (map (fun row => Js.parseFloat (DataService.raw_price row)) matching))
          (length matching)
    end.
Proof.
  rewrite (getPrice_state _ _ _ _ _ Hservice Hst).
  unfold DataService.loadData. rewrite (mapRecords_accepts rows [] Hrows).
  unfold DataService.getMeanPrice, DataService.getStateData. cbn [DataService.data].
  rewrite (eqb_empty_false _ (trim_nonempty st Hst)), filter_toPriceRecord.
  destruct (rowsOfRegion rows st) as [|row matching]; [reflexivity|].
  cbn [map length Nat.eqb fst]. unfold arithmeticMean.
  rewrite fold_left_prices. cbn [map length]. rewrite !length_map, map_map. reflexivity.
Qed.

(** X16. [GET /] reloads on every request: when the load fails it answers
    500, whatever the service already holds for that state, and the service
    keeps what it held. *)
Theorem getPrice_reload_failure
    (dataService : option DataService.t) (envPath : option string)
    (service : DataService.t) (src : DataService.Source) (st : string)
    (e : DataService.LoadError)
    (Hservice : PriceRoutes.getDataService dataService envPath = Some service)
    (Hfails : fst (DataService.loadData src service) = inl e)
    (Hst : Js.trim st <> "") :
  PriceRoutes.getPrice dataService envPath src (PriceRoutes.Text st)
  = (PriceRoutes.Failure 500 "Failed to load price data", Some service).
Proof.
  rewrite (getPrice_state _ _ _ _ _ Hservice Hst).
  destruct (loadData_cases src service) as [[e' H]|(records & _ & _ & H)];
    rewrite H in *; [reflexivity|discriminate].
Qed.

(** X17. The gate comes first: a request whose bearer token verifies, with
    a payload that [!user] does not take for a missing one, gets the
    handler's answer, and any other request gets a 401 that does not
    depend on the file and leaves the data service as it was. *)
Theorem priceRouter_gate_first (m : PriceRoutes.Modules) (env : AuthService.Env)
    (envPath : option string) (now : Z) (src : DataService.Source)
    (req : PriceRoutes.Request) :
  ((exists header token svc user,
       PriceRoutes.authorization req = Some header /\ bearer header token
       /\ AuthMiddleware.getAuthService (PriceRoutes.authService m) env = inr svc
       /\ AuthService.validateToken svc token now = Some user
       /\ Jwt.truthy user = true) ->
   fst (PriceRoutes.priceRouter m env envPath now src req)
   = fst (PriceRoutes.getPrice (PriceRoutes.dataService m) envPath src (PriceRoutes.state req)))
  /\ (~ (exists header token svc user,
            PriceRoutes.authorization req = Some header /\ bearer header token
            /\ AuthMiddleware.getAuthService (PriceRoutes.authService m) env = inr svc
            /\ AuthService.validateToken svc token now = Some user
            /\ Jwt.truthy user = true) ->
      exists error,
        forall src',
          fst (PriceRoutes.priceRouter m env envPath now src' req)
          = PriceRoutes.Failure 401 error
          /\ PriceRoutes.dataService (snd (PriceRoutes.priceRouter m env envPath now src' req))
             = PriceRoutes.dataService m).
Proof.
  unfold PriceRoutes.priceRouter. split.
  - intros (header & token & svc & user & Hh & Hb & Hsvc & Hvalid & Htruthy).
    rewrite Hh, (authMiddleware_bearer _ _ _ _ _ Hb), Hsvc, Hvalid, Htruthy.
    destruct (PriceRoutes.getPrice (PriceRoutes.dataService m) envPath src
                (PriceRoutes.state req)); reflexivity.
  - intros Hnot.
    destruct (bearer_decidable (PriceRoutes.authorization req))
      as [(header & token & Hh & Hb)|Hnb].
    + rewrite Hh, (authMiddleware_bearer _ _ _ _ _ Hb).
      destruct (AuthMiddleware.getAuthService (PriceRoutes.authService m) env)
        as [e|svc] eqn:Hsvc; [eexists; intros src'; split; reflexivity|].
      destruct (AuthService.validateToken svc token now) as [user|] eqn:Hvalid;
        [|eexists; intros src'; split; reflexivity].
      destruct (Jwt.truthy user) eqn:Htruthy;
        [|eexists; intros src'; split; reflexivity].
      destruct Hnot. exists header, token, svc, user. auto.
    + rewrite (authMiddleware_not_bearer _ _ _ _ Hnb).
      eexists. intros src'. split; reflexivity.
Qed.

End RoutesMore.

(** ** White space around entries, and blank states *)

Section Blanks.

Import Spec Properties.

(** X18. An entry of the multi-user form is trimmed as a whole before it is
    split: white space before or after an entry, such as a space after a
    comma, changes nothing of what the entry stores. *)
Theorem addPair_ignores_padding (users : gmap string string)
    (before pair after : string)
    (Hbefore : allWhitespace before = true) (Hafter : allWhitespace after = true) :
  AuthService.addPair users (before ++ pair ++ after) = AuthService.addPair users pair.
Proof.
  unfold AuthService.addPair. rewrite (trim_padded before pair after Hbefore Hafter).
  reflexivity.
Qed.

(** X19. [GET /] answers 400 exactly when the [state] parameter is no text
    or is blank once trimmed; the answer then depends neither on the file
    nor on the configured path, and no data service is built or loaded. *)
Theorem getPrice_bad_request (dataService : option DataService.t)
    (envPath : option string) (src : DataService.Source) (state : PriceRoutes.queryParam) :
  ((exists error,
       fst (PriceRoutes.getPrice dataService envPath src state)
       = PriceRoutes.Failure 400 error)
   <-> blankState state)
  /\ (blankState state ->
      forall envPath' src',
        PriceRoutes.getPrice dataService envPath' src' state
        = (PriceRoutes.Failure 400 "State query parameter is required", dataService)).
Proof.
  assert (Hblank : blankState state ->
                   forall envPath' src',
                     PriceRoutes.getPrice dataService envPath' src' state
                     = (PriceRoutes.Failure 400 "State query parameter is required",
                        dataService)).
  { intros Hb envPath' src'. destruct state as [|st|]; try reflexivity.
    simpl in Hb. unfold PriceRoutes.getPrice. rewrite Hb. simpl.
    rewrite orb_true_r. reflexivity. }
  split; [split|exact Hblank].
  - intros [error Herror]. destruct state as [|st|]; simpl; auto.
    destruct (String.eqb_spec (Js.trim st) "") as [He|Hne]; [exact He|].
    exfalso. unfold PriceRoutes.getPrice in Herror.
    rewrite (eqb_empty_false _ Hne) in Herror.
    assert (Hst : st <> "") by (intros ->; apply Hne; reflexivity).
    rewrite (eqb_empty_false _ Hst) in Herror. simpl in Herror.
    destruct (PriceRoutes.getDataService dataService envPath) as [service|];
      [|discriminate].
    destruct (DataService.loadData src service) as [[e|[]] service']; [discriminate|].
    destruct (DataService.getMeanPrice service' st); discriminate.
  - intros Hb. rewrite (Hblank Hb). simpl. eauto.
Qed.

End Blanks.

(** ** The further properties at concrete inputs *)

Section MoreInstances.

Import Examples Scenarios.


Lemma stored_records_sample :
  Forall Properties.wellStored (DataService.getAllData sampleService).
Proof. exact (stored_records_pass_the_row_check sampleService sampleService_reachable). Defined.

(** A bad row after the four sample rows: the error names that row. *)
Lemma first_invalid_row_sample :
  DataService.loadData
    (DataService.Parsed (sampleRows ++ row "Vic" "invalid_price" "2025-06-24 01:00:00"
                                     :: sampleRows)%list) freshService
  = (inl (DataService.ParseFailed
            (DataService.InvalidDataFormat (row "Vic" "invalid_price" "2025-06-24 01:00:00"))),
     freshService).
Proof.
  apply loadData_reports_first_invalid_row; [|reflexivity].
  repeat constructor.
Defined.

Lemma mean_defined_sample :
  (exists mean, DataService.getMeanPrice sampleService "NSW" = Some mean)
  <-> In (Js.Str "NSW") (DataService.getAvailableStates sampleService).
Proof. exact (getMeanPrice_defined_iff_listed sampleService sampleService_reachable "NSW"). Defined.

Lemma record_counts_sample :
  list_sum (map (Properties.recordCount sampleService)
                (DataService.getAvailableStates sampleService))
  = length (DataService.getAllData sampleService).
Proof.
  apply (record_counts_add_up sampleService sampleService_reachable).
  repeat constructor.
Defined.

Lemma duplicateService_constructed :
  AuthService.constructor duplicateEnv = inr duplicateService.
Proof. vm_compute. reflexivity. Qed.

(** "admin" occurs twice: the second password is the stored one. *)
Lemma last_entry_wins_sample :
  AuthService.users duplicateService !! "admin" = Some "second".
Proof.
  apply (multi_user_last_entry_wins duplicateEnv duplicateService eq_refl
           duplicateService_constructed "admin" "second").
  exists ["admin:first"; "guest:pw"], "admin:second", [].
  split; [reflexivity|]. split; [split; reflexivity|constructor].
Defined.

Lemma validity_window_sample :
  exists token,
    AuthService.generateToken (H := bitCodec) testService "testuser"
      (AuthService.steady 1750723200000) = inr token
    /\ (1750723200000 / 1000 < 1750723200000 / 1000 + 86400 ->
        AuthService.validateToken (H := bitCodec) testService token 1750723200000
        = Some (Jwt.object_of {| Jwt.username := "testuser";
                                 Jwt.iat := 1750723200000 / 1000;
                                 Jwt.exp := 1750723200000 / 1000 + 86400 |}))
    /\ (1750723200000 / 1000 + 86400 <= 1750723200000 / 1000 ->
        AuthService.validateToken (H := bitCodec) testService token 1750723200000 = None).
Proof.
  exact (@issued_token_validity_window bitCodec bitCodec_laws testEnv testService
           testService_constructed "testuser" 1750723200000 1750723200000).
Defined.

Lemma another_secret_sample :
  exists token,
    AuthService.generateToken (H := bitCodec) testService "testuser"
      (AuthService.steady 1750723200000) = inr token
    /\ AuthService.validateToken (H := bitCodec) otherService token 1750723200000 = None.
Proof.
  destruct (@generateToken_succeeds bitCodec testService "testuser"
              (AuthService.steady 1750723200000)) as [token Htoken]; [discriminate|].
  exists token. split; [exact Htoken|].
  apply (@token_of_another_secret_refused bitCodec bitCodec_laws testService otherService
           "testuser" (AuthService.steady 1750723200000) token 1750723200000 Htoken).
  discriminate.
Defined.

Lemma login_sample :
  (exists token expiresIn,
      fst (AuthRoutes.login (H := bitCodec) None testEnv (AuthService.steady 1750723200000)
             (Some (AuthRoutes.Text "admin", AuthRoutes.Text "adminpass")))
      = AuthRoutes.LoginResponse token expiresIn)
  /\ ~ (exists token expiresIn,
          fst (AuthRoutes.login (H := bitCodec) None testEnv (AuthService.steady 1750723200000)
                 (Some (AuthRoutes.Text "admin", AuthRoutes.Text "testpass")))
          = AuthRoutes.LoginResponse token expiresIn).
Proof.
  split.
  - apply (proj1 (@login_issues_token_iff bitCodec testEnv testService testService_constructed
                    None (or_introl eq_refl) (AuthService.steady 1750723200000) _)).
    exists "admin", "adminpass". repeat split; discriminate.
  - intros H.
    apply (proj1 (@login_issues_token_iff bitCodec testEnv testService testService_constructed
                    None (or_introl eq_refl) (AuthService.steady 1750723200000) _)) in H.
    destruct H as (u & p & [= <- <-] & _ & _ & Hin). discriminate Hin.
Defined.


Lemma getPrice_sample :
  fst (PriceRoutes.getPrice None (Some "data/prices.csv") (DataService.Parsed sampleRows)
         (PriceRoutes.Text "NSW"))
  = PriceRoutes.PriceResponse "NSW" (Js.parseFloat_string "85") 2
  /\ fst (PriceRoutes.getPrice None (Some "data/prices.csv") (DataService.Parsed sampleRows)
            (PriceRoutes.Text "WA"))
     = PriceRoutes.Failure 404 "No data found for state: WA".
Proof.
  split.
  - rewrite (getPrice_answers_from_the_file None (Some "data/prices.csv") freshService
               sampleRows "NSW" eq_refl); [|repeat constructor|discriminate].
    vm_compute. reflexivity.
  - rewrite (getPrice_answers_from_the_file None (Some "data/prices.csv") freshService
               sampleRows "WA" eq_refl); [|repeat constructor|discriminate].
    reflexivity.
Defined.

(** The service holds prices for "NSW", the reload fails: 500. *)
Lemma reload_failure_sample :
  (exists mean, DataService.getMeanPrice sampleService "NSW" = Some mean)
  /\ PriceRoutes.getPrice (Some sampleService) None (DataService.Parsed malformedRows)
       (PriceRoutes.Text "NSW")
     = (PriceRoutes.Failure 500 "Failed to load price data", Some sampleService).
Proof.
  split; [eexists; vm_compute; reflexivity|].
  apply (getPrice_reload_failure (Some sampleService) None sampleService
           (DataService.Parsed malformedRows) "NSW"
           (DataService.ParseFailed
              (DataService.InvalidDataFormat (row "Vic" "invalid_price" "2025-06-24 00:00:00")))
           eq_refl eq_refl).
  discriminate.
Defined.

(** A space after the comma does not keep "c" out. *)
Lemma padding_sample :
  AuthService.addPair ∅ (" " ++ "c:d" ++ "") = AuthService.addPair ∅ "c:d".
Proof. exact (addPair_ignores_padding ∅ " " "c:d" "" eq_refl eq_refl). Defined.

End MoreInstances.
